(** * WebApp/UI services: AsymmetricEncryption and ServicesContext

    A shallow embedding of
      - [src/services/AsymmetricEncryption.ts]  (class [AsymmetricEncryption])
      - [src/contexts/ServicesContext/ServicesContext.tsx]  ([useServices])
    together with the platform functions these files call: [btoa], [atob],
    [String.fromCharCode], [TextEncoder.encode], [TextDecoder.decode] and the
    [crypto.subtle] provider.

    The platform functions are written after their standards: [btoa] and
    [atob] after HTML and the forgiving-base64 algorithms of Infra (RFC 4648
    alphabet), [TextEncoder] and [TextDecoder] after the UTF-8 encoder and
    decoder of the Encoding Standard, [crypto.subtle] after the Web
    Cryptography API, with RSAES-OAEP as in RFC 8017.

    Conventions.
      - A byte is a [Z] in [0, 256); a [Uint8Array] is a [list Z] of bytes.
      - A JavaScript string is the list of its UTF-16 code units, each a [Z]
        in [0, 65536).
      - An [async] method is a computation in the monad [Js]: it threads the
        state of the host (the entropy the provider draws from, the trace of
        provider calls, the heap of class instances) and ends either in a
        value or in a thrown exception.  [await] is sequencing. *)

From Stdlib Require Import ZArith List Lia Bool String Ascii.
Import ListNotations.
Local Open Scope Z_scope.

(* ===================================================================== *)
(** * Bytes, code units, strings *)
(* ===================================================================== *)

Definition is_byte (b : Z) : Prop := 0 <= b < 256.
Definition bytes (bs : list Z) : Prop := Forall is_byte bs.

Definition is_code_unit (c : Z) : Prop := 0 <= c < 65536.
Definition JSString := list Z.
Definition js_string (s : JSString) : Prop := Forall is_code_unit s.

(** A string literal of the source, as its code units (ASCII literals only). *)
Definition lit (s : string) : JSString :=
  map (fun a => Z.of_N (N_of_ascii a)) (list_ascii_of_string s).
Arguments lit s%_string.

(** [String.fromCharCode(...bytes)]: one code unit per argument, taken
    modulo 2^16. *)
Definition fromCharCode (args : list Z) : JSString :=
  map (fun n => n mod 65536) args.

(** [Uint8Array.from(str, c => c.charCodeAt(0))]: every element is stored
    modulo 2^8. *)
Definition Uint8Array_from_charCodes (s : JSString) : list Z :=
  map (fun c => c mod 256) s.

(* ===================================================================== *)
(** * Exceptions *)
(* ===================================================================== *)

(** The exceptions the platform throws in the paths the source exercises;
    the source defines no error class of its own and catches nothing.
    [ErrorMsg] is a plain [new Error(message)]. *)
Inductive Exn : Type :=
| InvalidCharacterError   (* btoa / atob *)
| OperationError          (* crypto.subtle: the operation itself failed *)
| InvalidAccessError      (* crypto.subtle: key unsuitable for the call *)
| DataError               (* crypto.subtle.importKey: malformed key data *)
| NotSupportedError
| SyntaxError
| ErrorMsg (message : string).

(* ===================================================================== *)
(** * Base64: [btoa] and [atob] *)
(* ===================================================================== *)

Module Base64.

(** The alphabet of RFC 4648 section 4: value [n] in [0, 64) to its
    character. *)
Definition char_of_sextet (n : Z) : Z :=
  if n <? 26 then 65 + n                (* 'A'..'Z' *)
  else if n <? 52 then 97 + (n - 26)    (* 'a'..'z' *)
  else if n <? 62 then 48 + (n - 52)    (* '0'..'9' *)
  else if n =? 62 then 43               (* '+' *)
  else 47.                              (* '/' *)

Definition sextet_of_char (c : Z) : option Z :=
  if (65 <=? c) && (c <=? 90) then Some (c - 65)
  else if (97 <=? c) && (c <=? 122) then Some (c - 97 + 26)
  else if (48 <=? c) && (c <=? 57) then Some (c - 48 + 52)
  else if c =? 43 then Some 62
  else if c =? 47 then Some 63
  else None.

Definition pad : Z := 61. (* '=' *)

(** forgiving-base64 encode: RFC 4648 with padding. *)
Fixpoint encode (bs : list Z) : JSString :=
  match bs with
  | [] => []
  | [a] =>
      [ char_of_sextet (Z.shiftr a 2);
        char_of_sextet (Z.shiftl (Z.land a 3) 4);
        pad; pad ]
  | [a; b] =>
      [ char_of_sextet (Z.shiftr a 2);
        char_of_sextet (Z.lor (Z.shiftl (Z.land a 3) 4) (Z.shiftr b 4));
        char_of_sextet (Z.shiftl (Z.land b 15) 2);
        pad ]
  | a :: b :: c :: rest =>
      char_of_sextet (Z.shiftr a 2)
      :: char_of_sextet (Z.lor (Z.shiftl (Z.land a 3) 4) (Z.shiftr b 4))
      :: char_of_sextet (Z.lor (Z.shiftl (Z.land b 15) 2) (Z.shiftr c 6))
      :: char_of_sextet (Z.land c 63)
      :: encode rest
  end.

(** [btoa(data)]: throws InvalidCharacterError when a code unit is above
    0xFF, otherwise encodes the code units as bytes. *)
Definition btoa (data : JSString) : Exn + JSString :=
  if forallb (fun c => c <=? 255) data then inr (encode data)
  else inl InvalidCharacterError.

(** forgiving-base64 decode (WHATWG Infra), step by step. *)

(** 1. Remove all ASCII whitespace (TAB, LF, FF, CR, SPACE). *)
Definition is_ascii_whitespace (c : Z) : bool :=
  (c =? 9) || (c =? 10) || (c =? 12) || (c =? 13) || (c =? 32).

Definition remove_whitespace (data : JSString) : JSString :=
  filter (fun c => negb (is_ascii_whitespace c)) data.

(** 2. If the length is a multiple of 4 and the data ends with one or two
    '=', remove them (at most two). *)
Fixpoint drop_trailing_pad (data : JSString) : JSString :=
  match data with
  | [] => []
  | c :: rest =>
      match rest with
      | [] => if c =? pad then [] else [c]
      | [d] => if (c =? pad) && (d =? pad) then [] else c :: drop_trailing_pad rest
      | _ => c :: drop_trailing_pad rest
      end
  end.

Definition strip_padding (data : JSString) : JSString :=
  if Z.of_nat (List.length data) mod 4 =? 0 then drop_trailing_pad data else data.

(** 4. Every remaining code point must be in the alphabet. *)
Fixpoint sextets (data : JSString) : option (list Z) :=
  match data with
  | [] => Some []
  | c :: rest =>
      match sextet_of_char c, sextets rest with
      | Some v, Some vs => Some (v :: vs)
      | _, _ => None
      end
  end.

(** 5-9. Append six bits per character to a buffer; every 24 bits give
    three bytes; 12 left-over bits give one byte (the last four are
    discarded), 18 left-over bits give two (the last two are discarded). *)
Fixpoint decode_sextets (vs : list Z) : list Z :=
  match vs with
  | a :: b :: c :: d :: rest =>
      let n := Z.lor (Z.lor (Z.lor (Z.shiftl a 18) (Z.shiftl b 12))
                            (Z.shiftl c 6)) d in
      Z.land (Z.shiftr n 16) 255 :: Z.land (Z.shiftr n 8) 255
      :: Z.land n 255 :: decode_sextets rest
  | [a; b; c] =>
      let n := Z.shiftr (Z.lor (Z.lor (Z.shiftl a 12) (Z.shiftl b 6)) c) 2 in
      [ Z.land (Z.shiftr n 8) 255; Z.land n 255 ]
  | [a; b] =>
      let n := Z.shiftr (Z.lor (Z.shiftl a 6) b) 4 in
      [ Z.land n 255 ]
  | _ => []
  end.

Definition forgiving_decode (data : JSString) : option (list Z) :=
  let data := strip_padding (remove_whitespace data) in
  (* 3. A length of 1 modulo 4 is a failure. *)
  if Z.of_nat (List.length data) mod 4 =? 1 then None
  else match sextets data with
       | Some vs => Some (decode_sextets vs)
       | None => None
       end.

(** [atob(data)]: throws InvalidCharacterError when decoding fails. *)
Definition atob (data : JSString) : Exn + JSString :=
  match forgiving_decode data with
  | Some bs => inr bs
  | None => inl InvalidCharacterError
  end.

End Base64.


(* ===================================================================== *)
(** * Text: UTF-16 strings, [TextEncoder], [TextDecoder] *)
(* ===================================================================== *)

Definition REPLACEMENT : Z := 0xFFFD.
Definition BOM : Z := 0xFEFF.

Module UTF16.

Definition is_high_surrogate (c : Z) : bool := (0xD800 <=? c) && (c <=? 0xDBFF).
Definition is_low_surrogate (c : Z) : bool := (0xDC00 <=? c) && (c <=? 0xDFFF).

(** The scalar values of a JavaScript string (conversion to a USVString):
    a surrogate pair is one supplementary code point, an unpaired
    surrogate becomes U+FFFD. *)
Fixpoint to_scalar_values (s : JSString) : list Z :=
  match s with
  | [] => []
  | c :: rest =>
      if is_high_surrogate c then
        match rest with
        | d :: rest' =>
            if is_low_surrogate d
            then (0x10000 + Z.shiftl (c - 0xD800) 10 + (d - 0xDC00))
                   :: to_scalar_values rest'
            else REPLACEMENT :: to_scalar_values rest
        | [] => [REPLACEMENT]
        end
      else if is_low_surrogate c then REPLACEMENT :: to_scalar_values rest
      else c :: to_scalar_values rest
  end.

(** The code units of a code point. *)
Definition of_code_point (cp : Z) : list Z :=
  if cp <? 0x10000 then [cp]
  else [ 0xD800 + Z.shiftr (cp - 0x10000) 10;
         0xDC00 + Z.land (cp - 0x10000) 0x3FF ].

Definition of_code_points (cps : list Z) : JSString :=
  flat_map of_code_point cps.

(** A string without unpaired surrogates. *)
Fixpoint well_formed (s : JSString) : bool :=
  match s with
  | [] => true
  | c :: rest =>
      if is_high_surrogate c then
        match rest with
        | d :: rest' => is_low_surrogate d && well_formed rest'
        | [] => false
        end
      else negb (is_low_surrogate c) && well_formed rest
  end.

End UTF16.

Module UTF8.

(** The UTF-8 encoder of the Encoding Standard. *)
Fixpoint continuation (cp : Z) (count : nat) : list Z :=
  match count with
  | O => []
  | S k =>
      Z.lor 0x80 (Z.land (Z.shiftr cp (6 * Z.of_nat k)) 0x3F)
      :: continuation cp k
  end.

Definition encode_code_point (cp : Z) : list Z :=
  if cp <=? 0x7F then [cp]
  else
    let '(count, offset) :=
      if cp <=? 0x7FF then (1%nat, 0xC0)
      else if cp <=? 0xFFFF then (2%nat, 0xE0)
      else (3%nat, 0xF0) in
    (Z.shiftr cp (6 * Z.of_nat count) + offset) :: continuation cp count.

Definition encode (cps : list Z) : list Z := flat_map encode_code_point cps.

(** The UTF-8 decoder of the Encoding Standard: its five variables. *)
Record state : Type := mkState {
  code_point : Z;
  bytes_seen : Z;
  bytes_needed : Z;
  lower_boundary : Z;
  upper_boundary : Z
}.

Definition init : state := mkState 0 0 0 0x80 0xBF.

Inductive result : Type :=
| Continue (st : state)
| Emit (cp : Z) (st : state)
| Error (st : state)           (* emits U+FFFD *)
| ErrorRestore (st : state).   (* emits U+FFFD, the byte is read again *)

Definition between (lo hi b : Z) : bool := (lo <=? b) && (b <=? hi).

(** The decoder's handler for one byte. *)
Definition handler (st : state) (b : Z) : result :=
  if bytes_needed st =? 0 then
    if between 0x00 0x7F b then Emit b st
    else if between 0xC2 0xDF b then
      Continue (mkState (Z.land b 0x1F) (bytes_seen st) 1
                        (lower_boundary st) (upper_boundary st))
    else if between 0xE0 0xEF b then
      Continue (mkState (Z.land b 0xF) (bytes_seen st) 2
                        (if b =? 0xE0 then 0xA0 else lower_boundary st)
                        (if b =? 0xED then 0x9F else upper_boundary st))
    else if between 0xF0 0xF4 b then
      Continue (mkState (Z.land b 0x7) (bytes_seen st) 3
                        (if b =? 0xF0 then 0x90 else lower_boundary st)
                        (if b =? 0xF4 then 0x8F else upper_boundary st))
    else Error st
  else if negb (between (lower_boundary st) (upper_boundary st) b) then
    ErrorRestore init
  else
    let cp := Z.lor (Z.shiftl (code_point st) 6) (Z.land b 0x3F) in
    let seen := bytes_seen st + 1 in
    if seen =? bytes_needed st then Emit cp init
    else Continue (mkState cp seen (bytes_needed st) 0x80 0xBF).

(** Running the decoder over a whole input, end-of-queue included. *)
Fixpoint run (st : state) (bs : list Z) : list Z :=
  match bs with
  | [] => if bytes_needed st =? 0 then [] else [REPLACEMENT]
  | b :: rest =>
      match handler st b with
      | Continue st' => run st' rest
      | Emit cp st' => cp :: run st' rest
      | Error st' => REPLACEMENT :: run st' rest
      | ErrorRestore st' =>
          REPLACEMENT ::
          match handler st' b with
          | Continue st'' => run st'' rest
          | Emit cp st'' => cp :: run st'' rest
          | Error st'' => REPLACEMENT :: run st'' rest
          | ErrorRestore st'' => run st'' rest
          end
      end
  end.

Definition decode (bs : list Z) : list Z := run init bs.

(** The input is well-formed UTF-8: the decoder never reports an error. *)
Fixpoint valid_from (st : state) (bs : list Z) : bool :=
  match bs with
  | [] => bytes_needed st =? 0
  | b :: rest =>
      match handler st b with
      | Continue st' | Emit _ st' => valid_from st' rest
      | Error _ | ErrorRestore _ => false
      end
  end.

Definition valid (bs : list Z) : bool := valid_from init bs.

End UTF8.

(** [new TextEncoder().encode(data)]. *)
Definition TextEncoder_encode (data : JSString) : list Z :=
  UTF8.encode (UTF16.to_scalar_values data).

(** [new TextDecoder()] is the UTF-8 decoder with [fatal = false] and
    [ignoreBOM = false]: errors become U+FFFD, and a U+FEFF that is the first
    code point of the output is dropped. *)
Definition strip_bom (cps : list Z) : list Z :=
  match cps with
  | c :: rest => if c =? BOM then rest else cps
  | [] => []
  end.

Definition TextDecoder_decode (input : list Z) : JSString :=
  UTF16.of_code_points (strip_bom (UTF8.decode input)).

(* ===================================================================== *)
(** * The [crypto.subtle] provider *)
(* ===================================================================== *)

(** The source never looks inside a key or a ciphertext block: every
    cryptographic step is a call to [crypto.subtle].  The provider is
    therefore an interface; what the Web Cryptography API and RFC 8017
    guarantee about it is stated separately (see [oaep_pair],
    [transportable] and [Conforms]). *)

Inductive KeyFormat : Type := Spki | Pkcs8.
Inductive KeyUsage : Type := UEncrypt | UDecrypt.

(** [{ name, modulusLength, publicExponent, hash }] *)
Record RsaHashedKeyGenParams : Type := {
  gen_name : string;
  gen_modulusLength : Z;
  gen_publicExponent : list Z;
  gen_hash : string
}.

(** [{ name, hash }] *)
Record RsaHashedImportParams : Type := {
  imp_name : string;
  imp_hash : string
}.

(** [{ name }]: the OAEP label is left out by the source. *)
Record RsaOaepParams : Type := {
  oaep_name : string
}.

(** The provider.  Randomness is explicit: an operation that draws from the
    host's random source receives the drawn value ([seed]). *)
Record SubtleCrypto : Type := {
  CryptoKey : Type;
  generateKey :
    RsaHashedKeyGenParams -> bool -> list KeyUsage ->
    forall seed : list Z, Exn + (CryptoKey * CryptoKey);
  exportKey : KeyFormat -> CryptoKey -> Exn + list Z;
  importKey :
    KeyFormat -> list Z -> RsaHashedImportParams -> bool -> list KeyUsage ->
    Exn + CryptoKey;
  encrypt_op :
    RsaOaepParams -> CryptoKey -> forall seed : list Z, list Z -> Exn + list Z;
  decrypt_op : RsaOaepParams -> CryptoKey -> list Z -> Exn + list Z
}.

(** The literal parameters of the source. *)
Definition generateKey_params : RsaHashedKeyGenParams :=
  {| gen_name := "RSA-OAEP";
     gen_modulusLength := 2048;
     gen_publicExponent := [1; 0; 1];
     gen_hash := "SHA-256" |}.

Definition importKey_params : RsaHashedImportParams :=
  {| imp_name := "RSA-OAEP"; imp_hash := "SHA-256" |}.

Definition oaep_params : RsaOaepParams := {| oaep_name := "RSA-OAEP" |}.

(** The size in bytes of a digest, by the name of the hash. *)
Definition hash_bytes (hash : string) : Z :=
  if String.eqb hash "SHA-1" then 20
  else if String.eqb hash "SHA-256" then 32
  else if String.eqb hash "SHA-384" then 48
  else if String.eqb hash "SHA-512" then 64
  else 0.

(** The longest message RSAES-OAEP takes under a modulus of [k] bytes and a
    hash of [hLen] bytes (RFC 8017, section 7.1.1). *)
Definition oaep_capacity (k hLen : Z) : Z := k - 2 * hLen - 2.

(** ** What the standards say about the provider *)

Section ProviderContract.

Variable P : SubtleCrypto.

(** [pk] and [sk] are the two halves of an RSA-OAEP key whose modulus has
    [k] bytes and whose hash has [hLen] bytes (RFC 8017, section 7.1):
    - a message of at most [k - 2 hLen - 2] bytes is encrypted to a block
      of exactly [k] bytes that the private key decrypts to the message;
    - a longer message is refused ("message too long"), which the Web
      Cryptography API reports as OperationError;
    - the block determines the OAEP seed that was drawn;
    - a decryption the private key refuses is an OperationError. *)
Record oaep_pair (k hLen : Z) (pk sk : CryptoKey P) : Prop := {
  oaep_correct :
    forall seed m, bytes m ->
      Z.of_nat (List.length m) <= oaep_capacity k hLen ->
      exists c, encrypt_op P oaep_params pk seed m = inr c /\
                bytes c /\ Z.of_nat (List.length c) = k /\
                decrypt_op P oaep_params sk c = inr m;
  oaep_too_long :
    forall seed m, oaep_capacity k hLen < Z.of_nat (List.length m) ->
      encrypt_op P oaep_params pk seed m = inl OperationError;
  oaep_seed :
    forall s1 s2 m c,
      bytes s1 -> Z.of_nat (List.length s1) = hLen ->
      bytes s2 -> Z.of_nat (List.length s2) = hLen ->
      encrypt_op P oaep_params pk s1 m = inr c ->
      encrypt_op P oaep_params pk s2 m = inr c -> s1 = s2;
  oaep_reject :
    forall c e, decrypt_op P oaep_params sk c = inl e -> e = OperationError;
  oaep_plain_bytes :
    forall c m, decrypt_op P oaep_params sk c = inr m -> bytes m
}.

(** A public key has an SPKI encoding from which [importKey], called the
    way the source calls it, gives the key back. *)
Definition spki_of (pk : CryptoKey P) (der : list Z) : Prop :=
  exportKey P Spki pk = inr der /\ bytes der /\
  importKey P Spki der importKey_params true [UEncrypt] = inr pk.

(** The same for a private key and PKCS#8. *)
Definition pkcs8_of (sk : CryptoKey P) (der : list Z) : Prop :=
  exportKey P Pkcs8 sk = inr der /\ bytes der /\
  importKey P Pkcs8 der importKey_params true [UDecrypt] = inr sk.

Definition transportable (pk sk : CryptoKey P) : Prop :=
  (exists der, spki_of pk der) /\ (exists der, pkcs8_of sk der).

(** A conforming provider: what [generateKey] returns for the source's
    parameters (extractable keys, a modulus of 2048 bits, SHA-256) is an
    RSA-OAEP pair of that size that can be exported and imported again. *)
Record Conforms : Prop := {
  generateKey_pair :
    forall seed pk sk,
      generateKey P generateKey_params true [UEncrypt; UDecrypt] seed
        = inr (pk, sk) ->
      oaep_pair (gen_modulusLength generateKey_params / 8)
                (hash_bytes (gen_hash generateKey_params)) pk sk /\
      transportable pk sk
}.

End ProviderContract.

(* ===================================================================== *)
(** * The host: entropy, provider calls, objects *)
(* ===================================================================== *)

Inductive SubtleCall : Type :=
| CallGenerateKey
| CallExportKey (format : KeyFormat)
| CallImportKey (format : KeyFormat)
| CallEncrypt
| CallDecrypt.

Section Host.

Variable P : SubtleCrypto.

(** The two fields of an [AsymmetricEncryption] object. *)
Record Instance : Type := mkInstance {
  publicKey : CryptoKey P;
  privateKey : CryptoKey P
}.

(** [CryptoKeyPair]. *)
Definition CryptoKeyPair : Type := Instance.

Record World : Type := mkWorld {
  entropy : nat -> list Z;     (* the n-th value of the random source *)
  draws : nat;                 (* values drawn so far *)
  trace : list SubtleCall;     (* provider calls so far, latest first *)
  heap : list Instance         (* the objects, by address *)
}.

(** A computation of the host: a value or a thrown exception, and the
    world afterwards. *)
Definition Js (A : Type) : Type := World -> (Exn + A) * World.

Definition ret {A} (a : A) : Js A := fun w => (inr a, w).

Definition throw {A} (e : Exn) : Js A := fun w => (inl e, w).

Definition bind {A B} (m : Js A) (f : A -> Js B) : Js B :=
  fun w =>
    match m w with
    | (inr a, w') => f a w'
    | (inl e, w') => (inl e, w')
    end.

(** A platform function that returns or throws, without touching the
    world. *)
Definition lift {A} (r : Exn + A) : Js A := fun w => (r, w).

Definition draw : Js (list Z) :=
  fun w => (inr (entropy w (draws w)),
            mkWorld (entropy w) (S (draws w)) (trace w) (heap w)).

Definition record_call (c : SubtleCall) : Js unit :=
  fun w => (inr tt, mkWorld (entropy w) (draws w) (c :: trace w) (heap w)).

(** [new AsymmetricEncryption(publicKey, privateKey)]: a fresh object. *)
Definition alloc (o : Instance) : Js nat :=
  fun w => (inr (List.length (heap w)),
            mkWorld (entropy w) (draws w) (trace w) (heap w ++ [o])).

(** Reading the object behind a reference. *)
Definition deref (this : nat) : Js Instance :=
  fun w => match nth_error (heap w) this with
           | Some o => (inr o, w)
           | None => (inl (ErrorMsg "TypeError"), w)
           end.

End Host.

Arguments ret {P A} a.
Arguments throw {P A} e.
Arguments bind {P A B} m f.
Arguments lift {P A} r.
Arguments draw {P}.
Arguments record_call {P} c.
Arguments alloc {P} o.
Arguments deref {P} this.
Arguments mkInstance {P} publicKey privateKey.
Arguments publicKey {P} i.
Arguments privateKey {P} i.
Arguments mkWorld {P} entropy draws trace heap.
Arguments entropy {P} w n.
Arguments draws {P} w.
Arguments trace {P} w.
Arguments heap {P} w.

Declare Scope js_scope.
Delimit Scope js_scope with js.
Notation "x <- m ;; k" := (bind m (fun x => k))
  (at level 61, m at next level, right associativity) : js_scope.

(* ===================================================================== *)
(** * [class AsymmetricEncryption] *)
(* ===================================================================== *)

Section AsymmetricEncryption.

Variable P : SubtleCrypto.
Local Open Scope js_scope.

(** The calls to [crypto.subtle]: each is recorded in the trace. *)
Definition subtle_generateKey (alg : RsaHashedKeyGenParams)
    (extractable : bool) (usages : list KeyUsage) : Js P (CryptoKeyPair P) :=
  _ <- record_call CallGenerateKey ;;
  seed <- draw ;;
  kp <- lift (generateKey P alg extractable usages seed) ;;
  ret (mkInstance (fst kp) (snd kp)).

Definition subtle_exportKey (format : KeyFormat) (key : CryptoKey P)
  : Js P (list Z) :=
  _ <- record_call (CallExportKey format) ;;
  lift (exportKey P format key).

Definition subtle_importKey (format : KeyFormat) (keyData : list Z)
    (alg : RsaHashedImportParams) (extractable : bool)
    (usages : list KeyUsage) : Js P (CryptoKey P) :=
  _ <- record_call (CallImportKey format) ;;
  lift (importKey P format keyData alg extractable usages).

Definition subtle_encrypt (alg : RsaOaepParams) (key : CryptoKey P)
    (data : list Z) : Js P (list Z) :=
  _ <- record_call CallEncrypt ;;
  seed <- draw ;;
  lift (encrypt_op P alg key seed data).

Definition subtle_decrypt (alg : RsaOaepParams) (key : CryptoKey P)
    (data : list Z) : Js P (list Z) :=
  _ <- record_call CallDecrypt ;;
  lift (decrypt_op P alg key data).

(** [constructor(publicKey, privateKey)] *)
Definition constructor (publicKey privateKey : CryptoKey P) : Js P nat :=
  alloc (mkInstance publicKey privateKey).

(** [static async generateKeyPair()] *)
Definition generateKeyPair : Js P (CryptoKeyPair P) :=
  keyPair <- subtle_generateKey generateKey_params true [UEncrypt; UDecrypt] ;;
  ret keyPair.

(** [static async New()] *)
Definition New : Js P nat :=
  keyPair <- generateKeyPair ;;
  constructor (publicKey keyPair) (privateKey keyPair).

(** [static async exportRSAKeyPairToBase64(keyPair)] *)
Definition exportRSAKeyPairToBase64 (keyPair : CryptoKeyPair P)
  : Js P (JSString * JSString) :=
  exportedPublicKey <- subtle_exportKey Spki (publicKey keyPair) ;;
  exportedPrivateKey <- subtle_exportKey Pkcs8 (privateKey keyPair) ;;
  base64PublicKey <- lift (Base64.btoa (fromCharCode exportedPublicKey)) ;;
  base64PrivateKey <- lift (Base64.btoa (fromCharCode exportedPrivateKey)) ;;
  ret (base64PublicKey, base64PrivateKey).

(** [static async importRSAKeyPairFromBase64(base64PublicKey,
    base64PrivateKey)] *)
Definition importRSAKeyPairFromBase64
    (base64PublicKey base64PrivateKey : JSString) : Js P (CryptoKeyPair P) :=
  publicKeyBinary <- lift (Base64.atob base64PublicKey) ;;
  let publicKeyBuffer := Uint8Array_from_charCodes publicKeyBinary in
  privateKeyBinary <- lift (Base64.atob base64PrivateKey) ;;
  let privateKeyBuffer := Uint8Array_from_charCodes privateKeyBinary in
  publicKey <- subtle_importKey Spki publicKeyBuffer importKey_params
                 true [UEncrypt] ;;
  privateKey <- subtle_importKey Pkcs8 privateKeyBuffer importKey_params
                  true [UDecrypt] ;;
  ret (mkInstance publicKey privateKey).

(** [async encrypt(data)] *)
Definition encrypt (this : nat) (data : JSString) : Js P JSString :=
  let encodedData := TextEncoder_encode data in
  self <- deref this ;;
  encryptedData <- subtle_encrypt oaep_params (publicKey self) encodedData ;;
  lift (Base64.btoa (fromCharCode encryptedData)).

(** [async decrypt(encryptedBase64Data)] *)
Definition decrypt (this : nat) (encryptedBase64Data : JSString)
  : Js P JSString :=
  binary <- lift (Base64.atob encryptedBase64Data) ;;
  let encryptedData := Uint8Array_from_charCodes binary in
  self <- deref this ;;
  decryptedData <- subtle_decrypt oaep_params (privateKey self) encryptedData ;;
  ret (TextDecoder_decode decryptedData).

End AsymmetricEncryption.

Arguments encrypt {P} this data.
Arguments decrypt {P} this encryptedBase64Data.
Arguments New {P}.
Arguments generateKeyPair {P}.
Arguments constructor {P} publicKey privateKey.
Arguments exportRSAKeyPairToBase64 {P} keyPair.
Arguments importRSAKeyPairFromBase64 {P} base64PublicKey base64PrivateKey.

(** Every operation the class offers, and its effect on the host. *)
Inductive Operation (P : SubtleCrypto) : Type :=
| OpConstructor (publicKey privateKey : CryptoKey P)
| OpNew
| OpGenerateKeyPair
| OpExport (keyPair : CryptoKeyPair P)
| OpImport (base64PublicKey base64PrivateKey : JSString)
| OpEncrypt (this : nat) (data : JSString)
| OpDecrypt (this : nat) (encryptedBase64Data : JSString).

Arguments OpConstructor {P} publicKey privateKey.
Arguments OpNew {P}.
Arguments OpGenerateKeyPair {P}.
Arguments OpExport {P} keyPair.
Arguments OpImport {P} base64PublicKey base64PrivateKey.
Arguments OpEncrypt {P} this data.
Arguments OpDecrypt {P} this encryptedBase64Data.

Definition perform {P} (op : Operation P) (w : World P) : World P :=
  match op with
  | OpConstructor pk sk => snd (constructor pk sk w)
  | OpNew => snd (New w)
  | OpGenerateKeyPair => snd (generateKeyPair w)
  | OpExport kp => snd (exportRSAKeyPairToBase64 kp w)
  | OpImport s1 s2 => snd (importRSAKeyPairFromBase64 s1 s2 w)
  | OpEncrypt this data => snd (encrypt this data w)
  | OpDecrypt this data => snd (decrypt this data w)
  end.

(** Base64 as the exchange format is described: RFC 4648, standard alphabet,
    padded.  This follows the specification's words, for comparison with what
    [atob] accepts. *)
Definition in_alphabet (c : Z) : bool :=
  match Base64.sextet_of_char c with Some _ => true | None => false end.

Fixpoint rfc4648_valid (s : JSString) : bool :=
  match s with
  | [] => true
  | [a; b; c; d] =>
      in_alphabet a && in_alphabet b &&
      ((in_alphabet c && (in_alphabet d || (d =? Base64.pad)))
       || ((c =? Base64.pad) && (d =? Base64.pad)))
  | a :: b :: c :: d :: rest =>
      in_alphabet a && in_alphabet b && in_alphabet c && in_alphabet d &&
      rfc4648_valid rest
  | _ => false
  end.

(** The plaintexts that [TextEncoder] and [TextDecoder] carry unchanged:
    code units in range, no unpaired surrogate, no U+FEFF in front. *)
Definition no_leading_bom (s : JSString) : bool :=
  match s with
  | c :: _ => negb (c =? BOM)
  | [] => true
  end.

(* ===================================================================== *)
(** * [ServicesContext] and [useServices] *)
(* ===================================================================== *)

Module ServicesContext.

(** [interface IServices { encryptionService: AsymmetricEncryption }]: the
    service is held by reference. *)
Record IServices : Type := { encryptionService : nat }.

(** A React context: the default value given to [createContext] and, at a
    use site, the values of the enclosing [Provider]s, innermost first. *)
Record Context (A : Type) : Type := { defaultValue : A }.
Arguments defaultValue {A} c.

Definition createContext {A} (defaultValue : A) : Context A :=
  {| defaultValue := defaultValue |}.

Definition useContext {A} (ctx : Context A) (enclosing : list A) : A :=
  match enclosing with
  | v :: _ => v
  | [] => defaultValue ctx
  end.

(** [createContext<IServices | null>(null)] *)
Definition ServicesContext : Context (option IServices) := createContext None.

(** [useServices()] at a use site with the given enclosing providers. *)
Definition useServices (enclosing : list (option IServices))
  : Exn + IServices :=
  let context := useContext ServicesContext enclosing in
  match context with
  | None =>
      inl (ErrorMsg "useServices must be used within a ServicesProvider")
  | Some context => inr context
  end.

(** What [ServicesProvider] renders: the placeholder while [services] is
    null, otherwise its children inside a [Provider] of [services]. *)
Inductive Rendered (R : Type) : Type :=
| Loading
| Children (r : R).
Arguments Loading {R}.
Arguments Children {R} r.

Definition ServicesProvider {R} (services : option IServices)
    (children : list (option IServices) -> R)
    (enclosing : list (option IServices)) : Rendered R :=
  match services with
  | None => Loading
  | Some s => Children (children (Some s :: enclosing))
  end.

End ServicesContext.

(* ===================================================================== *)
(** * A model provider *)
(* ===================================================================== *)

(** A small provider with the shape of RSA-OAEP but no cryptography: a key is
    the identifier of its pair, a block is a frame around the message.  It
    shows that the provider contract can be met, and gives the statements
    below something to run on. *)
Module ModelProvider.

Record key : Type := mkKey {
  is_private : bool;
  modulus_bytes : Z;
  pair_id : list Z
}.

Definition to_bytes (l : list Z) : list Z := map (fun x => x mod 256) l.

Definition tag (id : list Z) : Z := fold_right Z.add 0 id mod 256.

(** The seed as exactly 32 bytes. *)
Definition seed32 (seed : list Z) : list Z :=
  firstn 32 (to_bytes seed ++ repeat 0 32).

Definition alg_ok (name hash : string) : bool :=
  String.eqb name "RSA-OAEP" && String.eqb hash "SHA-256".

Definition do_generateKey (alg : RsaHashedKeyGenParams) (extractable : bool)
    (usages : list KeyUsage) (seed : list Z) : Exn + (key * key) :=
  if alg_ok (gen_name alg) (gen_hash alg) then
    let k := gen_modulusLength alg / 8 in
    inr (mkKey false k (to_bytes seed), mkKey true k (to_bytes seed))
  else inl NotSupportedError.

Definition format_tag (format : KeyFormat) : Z :=
  match format with Spki => 48 | Pkcs8 => 49 end.

Definition format_private (format : KeyFormat) : bool :=
  match format with Spki => false | Pkcs8 => true end.

Definition do_exportKey (format : KeyFormat) (k : key) : Exn + list Z :=
  if Bool.eqb (format_private format) (is_private k) then
    inr (format_tag format
         :: (modulus_bytes k / 256) mod 256
         :: modulus_bytes k mod 256
         :: to_bytes (pair_id k))
  else inl InvalidAccessError.

Definition do_importKey (format : KeyFormat) (keyData : list Z)
    (alg : RsaHashedImportParams) (extractable : bool)
    (usages : list KeyUsage) : Exn + key :=
  if alg_ok (imp_name alg) (imp_hash alg) then
    match keyData with
    | t :: hi :: lo :: id =>
        if t =? format_tag format
        then inr (mkKey (format_private format) (hi * 256 + lo) id)
        else inl DataError
    | _ => inl DataError
    end
  else inl NotSupportedError.

Definition hLen : Z := 32.

(** The block of [k] bytes: pair tag, seed, message length, message, zero
    fill. *)
Definition block (k : Z) (id seed data : list Z) : list Z :=
  let len := Z.of_nat (List.length data) in
  tag id :: seed32 seed ++ len :: to_bytes data
  ++ repeat 0 (Z.to_nat (k - 34 - len)).

Definition do_encrypt (alg : RsaOaepParams) (k : key) (seed data : list Z)
  : Exn + list Z :=
  if negb (String.eqb (oaep_name alg) "RSA-OAEP") then inl NotSupportedError
  else if is_private k then inl InvalidAccessError
  else if modulus_bytes k - 2 * hLen - 2 <? Z.of_nat (List.length data)
  then inl OperationError
  else inr (block (modulus_bytes k) (pair_id k) seed data).

Definition do_decrypt (alg : RsaOaepParams) (k : key) (data : list Z)
  : Exn + list Z :=
  if negb (String.eqb (oaep_name alg) "RSA-OAEP") then inl OperationError
  else if negb (is_private k) then inl InvalidAccessError
  else if negb (Z.of_nat (List.length data) =? modulus_bytes k)
  then inl OperationError
  else
    match data with
    | t :: rest =>
        if t =? tag (pair_id k) then
          let len := nth 32 rest 0 in
          if (0 <=? len) && (len <=? modulus_bytes k - 2 * hLen - 2)
          then inr (to_bytes (firstn (Z.to_nat len) (skipn 33 rest)))
          else inl OperationError
        else inl OperationError
    | [] => inl OperationError
    end.

Definition provider : SubtleCrypto :=
  Build_SubtleCrypto key do_generateKey do_exportKey do_importKey
                     do_encrypt do_decrypt.

(** A host to start from: the n-th random value is 32 bytes equal to n. *)
Definition world0 : World provider :=
  mkWorld (fun n => repeat (Z.of_nat n mod 256) 32) 0 [] [].

End ModelProvider.

(** The pair that the model provider generates from the first random value
    of [world0], and the host after [New]. *)
Definition model_pk : ModelProvider.key := ModelProvider.mkKey false 256 (repeat 0 32).
Definition model_sk : ModelProvider.key := ModelProvider.mkKey true 256 (repeat 0 32).

Definition model_world : World ModelProvider.provider :=
  mkWorld (entropy ModelProvider.world0) 1 [CallGenerateKey]
          [mkInstance (P:=ModelProvider.provider) model_pk model_sk].

(** A second, unrelated pair of the model provider. *)
Definition other_pk : ModelProvider.key := ModelProvider.mkKey false 256 (repeat 7 32).
Definition other_sk : ModelProvider.key := ModelProvider.mkKey true 256 (repeat 7 32).

(** The block the model provider makes of [plain] under [model_pk] with the
    random value [repeat 1 32], and its Base64 text. *)
Definition model_block (plain : list Z) : list Z :=
  match ModelProvider.do_encrypt oaep_params model_pk (repeat 1 32) plain with
  | inr block => block
  | inl _ => []
  end.

Definition model_ciphertext (plain : list Z) : JSString :=
  Base64.encode (model_block plain).

(* ===================================================================== *)
(** * Notions used in the proofs *)
(* ===================================================================== *)

Definition is_sextet (n : Z) : Prop := 0 <= n < 64.

(** The six-bit values of the Base64 text of a byte sequence, padding left
    out. *)
Fixpoint encode_sextets (bs : list Z) : list Z :=
  match bs with
  | [] => []
  | [a] => [a / 4; a mod 4 * 16]
  | [a; b] => [a / 4; a mod 4 * 16 + b / 16; b mod 16 * 4]
  | a :: b :: c :: rest =>
      a / 4 :: (a mod 4 * 16 + b / 16) :: (b mod 16 * 4 + c / 64) :: c mod 64
      :: encode_sextets rest
  end.

(** A Unicode scalar value: a code point that is not a surrogate. *)
Definition is_scalar (cp : Z) : Prop :=
  0 <= cp <= 0x10FFFF /\ ~ (0xD800 <= cp <= 0xDFFF).

(** The host after a provider call that draws from the random source, and
    after one that does not. *)
Definition drew_and_called {P} (c : SubtleCall) (w : World P) : World P :=
  mkWorld (entropy w) (S (draws w)) (c :: trace w) (heap w).

Definition called {P} (c : SubtleCall) (w : World P) : World P :=
  mkWorld (entropy w) (draws w) (c :: trace w) (heap w).

(** An object holding the given pair. *)
Definition holds {P} (w : World P) (this : nat) (pk sk : CryptoKey P) : Prop :=
  nth_error (heap w) this = Some (mkInstance pk sk).

(** Two encryptions of one text, then the two decryptions. *)
Definition encrypt_twice {P} (this : nat) (m : JSString)
  : Js P (JSString * JSString * JSString * JSString) :=
  (c1 <- encrypt this m ;;
   c2 <- encrypt this m ;;
   d1 <- decrypt this c1 ;;
   d2 <- decrypt this c2 ;;
   ret (c1, c2, d1, d2))%js.

(** The heap after a computation extends the heap before: objects are added,
    never changed. *)
Definition extends {P} (w w' : World P) : Prop :=
  exists added, heap w' = heap w ++ added.

Definition frames {P A} (m : Js P A) : Prop :=
  forall w, extends w (snd (m w)).

(** Generate a pair, export it, import the two texts, wrap the imported keys
    in a new object, and send a text through it (the scenario of the source's
    export/import test). *)
Definition export_import_scenario {P} (m : JSString)
  : Js P (CryptoKeyPair P * JSString) :=
  (keyPair <- generateKeyPair ;;
   exported <- exportRSAKeyPairToBase64 keyPair ;;
   importedKeys <- importRSAKeyPairFromBase64 (fst exported) (snd exported) ;;
   newInstance <- constructor (publicKey importedKeys) (privateKey importedKeys) ;;
   encryptedData <- encrypt newInstance m ;;
   decryptedMessage <- decrypt newInstance encryptedData ;;
   ret (importedKeys, decryptedMessage))%js.

(** A Base64 text with its '=' characters left out. *)
Definition unpadded (s : JSString) : JSString :=
  filter (fun c => negb (c =? Base64.pad)) s.

(* ===================================================================== *)
(** * [Logger.ts]: levels, formatter, console transport, [class Logger] *)
(* ===================================================================== *)

(** The console and the clock are the host of this file: [console.log],
    [console.warn] and [console.error] append a line, [new Date()] reads the
    clock.  A [Date] is its time value; [Date.prototype.toISOString] is the
    platform's and stays a parameter. *)
Module Logging.

(** [enum LogLevel { DEBUG = 0, INFO = 1, WARN = 2, ERROR = 3 }] *)
Inductive LogLevel : Type := DEBUG | INFO | WARN | ERROR.

(** The number of a member. *)
Definition value (l : LogLevel) : Z :=
  match l with DEBUG => 0 | INFO => 1 | WARN => 2 | ERROR => 3 end.

(** [LogLevel[n]]: the reverse mapping of a numeric enum, the member's name. *)
Definition name (l : LogLevel) : string :=
  match l with
  | DEBUG => "DEBUG" | INFO => "INFO" | WARN => "WARN" | ERROR => "ERROR"
  end.

Definition spaces (n : nat) : string :=
  string_of_list_ascii (repeat " "%char n).

(** [s.padEnd(targetLength)]: spaces are added up to the target length; a
    string that is long enough is returned as it is. *)
Definition padEnd (s : string) (targetLength : nat) : string :=
  (s ++ spaces (targetLength - String.length s))%string.

Definition Date : Type := Z.

(** [interface ILogObject] *)
Record ILogObject : Type := mkLogObject {
  level : LogLevel;
  message : string;
  timestamp : Date
}.

Inductive ConsoleMethod : Type := console_log | console_warn | console_error.

Record Host : Type := mkHost {
  clock : nat -> Date;                       (* the n-th reading of the clock *)
  readings : nat;                            (* readings so far *)
  console : list (ConsoleMethod * string)    (* the lines, oldest first *)
}.

(** [new Date()] *)
Definition new_Date (h : Host) : Date * Host :=
  (clock h (readings h), mkHost (clock h) (S (readings h)) (console h)).

Definition console_call (m : ConsoleMethod) (line : string) (h : Host) : Host :=
  mkHost (clock h) (readings h) (console h ++ [(m, line)]).

(** [interface ITransport { log(logObject: ILogObject): void }] *)
Record ITransport : Type := mkTransport {
  log : ILogObject -> Host -> Host
}.

Section Platform.

Variable toISOString : Date -> string.

(** [defaultFormatter] *)
Definition defaultFormatter (logObject : ILogObject) : string :=
  let timestamp := toISOString (timestamp logObject) in
  let level := padEnd (name (level logObject)) 5 in
  (timestamp ++ " [" ++ level ++ "] " ++ message logObject)%string.

(** [class ConsoleTransport]: [constructor(formatter = defaultFormatter)] and
    [log(logObject)]. *)
Definition ConsoleTransport (formatter : option (ILogObject -> string))
  : ITransport :=
  let formatter :=
    match formatter with Some f => f | None => defaultFormatter end in
  mkTransport (fun logObject h =>
    let message := formatter logObject in
    match level logObject with
    | ERROR => console_call console_error message h
    | WARN => console_call console_warn message h
    | _ => console_call console_log message h
    end).

(** The fields of a [Logger]. *)
Record Logger : Type := mkLogger {
  this_level : LogLevel;
  this_transport : ITransport;
  this_context : option string
}.

(** The argument of the constructor:
    [{ level?: LogLevel; transport?: ITransport; context?: string }]. *)
Record Options : Type := mkOptions {
  opt_level : option LogLevel;
  opt_transport : option ITransport;
  opt_context : option string
}.

(** [constructor(options)] *)
Definition new_Logger (options : Options) : Logger :=
  mkLogger
    (match opt_level options with Some l => l | None => INFO end)
    (match opt_transport options with
     | Some t => t
     | None => ConsoleTransport None
     end)
    (opt_context options).

(** [private shouldLog(level)] *)
Definition shouldLog (this : Logger) (level : LogLevel) : bool :=
  value (this_level this) <=? value level.

(** A string in a condition: true unless it is empty. *)
Definition truthy (s : string) : bool :=
  match s with EmptyString => false | _ => true end.

(** [private log(level, message)] *)
Definition Logger_log (this : Logger) (level : LogLevel) (message : string)
    (h : Host) : Host :=
  if negb (shouldLog this level) then h
  else
    let logMessage :=
      match this_context this with
      | Some context =>
          if truthy context then ("[" ++ context ++ "] " ++ message)%string
          else message
      | None => message
      end in
    let '(now, h) := new_Date h in
    log (this_transport this) (mkLogObject level logMessage now) h.

Definition debug (this : Logger) (message : string) : Host -> Host :=
  Logger_log this DEBUG message.

Definition info (this : Logger) (message : string) : Host -> Host :=
  Logger_log this INFO message.

Definition warn (this : Logger) (message : string) : Host -> Host :=
  Logger_log this WARN message.

Definition error (this : Logger) (message : string) : Host -> Host :=
  Logger_log this ERROR message.

(** [setLevel(level)] *)
Definition setLevel (this : Logger) (level : LogLevel) : Logger :=
  mkLogger level (this_transport this) (this_context this).

(** A run of calls on one logger: logging calls and changes of level. *)
Inductive Call : Type :=
| CallLog (level : LogLevel) (message : string)
| CallSetLevel (level : LogLevel).

Fixpoint run (this : Logger) (calls : list Call) (h : Host) : Logger * Host :=
  match calls with
  | [] => (this, h)
  | CallLog level message :: rest => run this rest (Logger_log this level message h)
  | CallSetLevel level :: rest => run (setLevel this level) rest h
  end.

End Platform.

End Logging.

(* ===================================================================== *)
(** * [ServicesProvider]: the component over time *)
(* ===================================================================== *)

Section ServicesProviderLifecycle.

Variable P : SubtleCrypto.

(** [useState<IServices | null>(null)]: the state before the effect. *)
Definition initial_services : option ServicesContext.IServices := None.

(** The effect of [useEffect(..., [])], run once after the first render:
    [await AsymmetricEncryption.New()], then [setServices({ encryptionService })].
    When [New] rejects, the rejection is not handled and the state stays as
    it was. *)
Definition mount_effect (services : option ServicesContext.IServices)
    (w : World P) : option ServicesContext.IServices * World P :=
  match New w with
  | (inr encryptionService, w') =>
      (Some {| ServicesContext.encryptionService := encryptionService |}, w')
  | (inl _, w') => (services, w')
  end.

End ServicesProviderLifecycle.

Arguments mount_effect {P} services w.

(* ===================================================================== *)
(** * Further notions used in the proofs *)
(* ===================================================================== *)

(** The number of characters of the Base64 text of [n] bytes. *)
Definition base64_length (n : Z) : Z := 4 * ((n + 2) / 3).

(** What the UTF-8 decoder holds between two bytes: nothing, or the upper
    bits of a code point together with the range the next byte must be in so
    that the result is a scalar value. *)
Definition decoder_invariant (st : UTF8.state) : Prop :=
  let cp := UTF8.code_point st in
  let lo := UTF8.lower_boundary st in
  let hi := UTF8.upper_boundary st in
  (UTF8.bytes_needed st = 0 /\ st = UTF8.init) \/
  (UTF8.bytes_needed st = 1 /\ UTF8.bytes_seen st = 0 /\ 2 <= cp <= 31 /\
   lo = 0x80 /\ hi = 0xBF) \/
  (UTF8.bytes_needed st = 2 /\ UTF8.bytes_seen st = 0 /\ 0 <= cp <= 15 /\
   lo = (if cp =? 0 then 0xA0 else 0x80) /\
   hi = (if cp =? 13 then 0x9F else 0xBF)) \/
  (UTF8.bytes_needed st = 2 /\ UTF8.bytes_seen st = 1 /\ 0x20 <= cp <= 0x3FF /\
   ~ (0x360 <= cp <= 0x37F) /\ lo = 0x80 /\ hi = 0xBF) \/
  (UTF8.bytes_needed st = 3 /\ UTF8.bytes_seen st = 0 /\ 0 <= cp <= 4 /\
   lo = (if cp =? 0 then 0x90 else 0x80) /\
   hi = (if cp =? 4 then 0x8F else 0xBF)) \/
  (UTF8.bytes_needed st = 3 /\ UTF8.bytes_seen st = 1 /\ 0x10 <= cp <= 0x10F /\
   lo = 0x80 /\ hi = 0xBF) \/
  (UTF8.bytes_needed st = 3 /\ UTF8.bytes_seen st = 2 /\ 0x400 <= cp <= 0x43FF /\
   lo = 0x80 /\ hi = 0xBF).

Module LoggingSpec.
Import Logging.

(** The console method a level is written with. *)
Definition method_of (l : LogLevel) : ConsoleMethod :=
  match l with
  | ERROR => console_error
  | WARN => console_warn
  | _ => console_log
  end.

(** A message behind the context of a logger. *)
Definition with_context (context : option string) (message : string) : string :=
  match context with
  | Some c =>
      match c with
      | EmptyString => message
      | _ => ("[" ++ c ++ "] " ++ message)%string
      end
  | None => message
  end.

(** The messages a threshold lets through. *)
Definition passing (threshold : LogLevel) (msgs : list (LogLevel * string))
  : list (LogLevel * string) :=
  filter (fun m => value threshold <=? value (fst m)) msgs.

(** The console lines of messages that are all written, the first at the
    [n]-th reading of the clock. *)
Fixpoint lines (format : ILogObject -> string) (context : option string)
    (clock : nat -> Date) (n : nat) (msgs : list (LogLevel * string))
  : list (ConsoleMethod * string) :=
  match msgs with
  | [] => []
  | (l, m) :: rest =>
      (method_of l, format (mkLogObject l (with_context context m) (clock n)))
      :: lines format context clock (S n) rest
  end.

(** The formatter a [ConsoleTransport] ends up with. *)
Definition format_of (toISOString : Date -> string)
    (formatter : option (ILogObject -> string)) : ILogObject -> string :=
  match formatter with
  | Some f => f
  | None => defaultFormatter toISOString
  end.

(** A clock reading for examples. *)
Definition epoch_iso (t : Date) : string := "1970-01-01T00:00:00.000Z".

Definition quiet_host : Host := mkHost (fun n => Z.of_nat n) 0 [].

Definition log_calls (msgs : list (LogLevel * string)) : list Call :=
  map (fun m => CallLog (fst m) (snd m)) msgs.

End LoggingSpec.

(** The ciphertext the model provider gives "Hello, World!" in
    [model_world]. *)
Definition model_ciphertext_of_hello : JSString :=
  Base64.encode
    (ModelProvider.block 256 (repeat 0 32) (repeat 1 32)
       (TextEncoder_encode (lit "Hello, World!"))).

(** Encrypt on an instance, then export its keys, import them, wrap them in
    a new object and decrypt there what the first instance encrypted. *)
Definition decrypt_after_transport {P} (this : nat) (m : JSString)
  : Js P JSString :=
  (encryptedData <- encrypt this m ;;
   self <- deref this ;;
   exported <- exportRSAKeyPairToBase64
                 (mkInstance (publicKey self) (privateKey self)) ;;
   importedKeys <- importRSAKeyPairFromBase64 (fst exported) (snd exported) ;;
   newInstance <- constructor (publicKey importedKeys)
                    (privateKey importedKeys) ;;
   decrypt newInstance encryptedData)%js.

(** A provider that cannot generate keys (the rest is the model provider's),
    and a host of it. *)
Definition failing_provider : SubtleCrypto :=
  Build_SubtleCrypto ModelProvider.key
    (fun _ _ _ _ => inl OperationError)
    ModelProvider.do_exportKey ModelProvider.do_importKey
    ModelProvider.do_encrypt ModelProvider.do_decrypt.

Definition failing_world : World failing_provider :=
  mkWorld (fun n => repeat (Z.of_nat n mod 256) 32) 0 [] [].

(* ===================================================================== *)
(** * Proofs *)
(* ===================================================================== *)

Lemma bytes_app a b : bytes a -> bytes b -> bytes (a ++ b).
Proof. intros Ha Hb; apply Forall_app; split; assumption. Qed.

Lemma bytes_cons_inv b bs : bytes (b :: bs) -> is_byte b /\ bytes bs.
Proof. intros H; inversion H; subst; split; assumption. Qed.

Lemma fromCharCode_bytes bs : bytes bs -> fromCharCode bs = bs.
Proof.
  unfold fromCharCode.
  induction 1 as [|b bs Hb _ IH]; simpl; [reflexivity|].
  rewrite IH. unfold is_byte in Hb. rewrite Z.mod_small by lia. reflexivity.
Qed.

Lemma Uint8Array_from_charCodes_bytes bs :
  bytes bs -> Uint8Array_from_charCodes bs = bs.
Proof.
  unfold Uint8Array_from_charCodes.
  induction 1 as [|b bs Hb _ IH]; simpl; [reflexivity|].
  rewrite IH. unfold is_byte in Hb. rewrite Z.mod_small by lia. reflexivity.
Qed.

(* ===================================================================== *)
(** * Bit-level helpers *)
(* ===================================================================== *)

Lemma shiftr_div (a n : Z) : 0 <= n -> Z.shiftr a n = a / 2 ^ n.
Proof. intros; apply Z.shiftr_div_pow2; assumption. Qed.

Lemma shiftl_mul (a n : Z) : 0 <= n -> Z.shiftl a n = a * 2 ^ n.
Proof. intros; apply Z.shiftl_mul_pow2; assumption. Qed.

Lemma land_mask (a n : Z) : 0 <= n -> Z.land a (2 ^ n - 1) = a mod 2 ^ n.
Proof.
  intros Hn. rewrite <- Z.land_ones by assumption.
  f_equal. rewrite Z.ones_equiv. lia.
Qed.

(** Or-ing a value below [2^n] into a multiple of [2^n] is an addition. *)
Lemma lor_add (hi lo n : Z) :
  0 <= n -> 0 <= lo < 2 ^ n -> Z.lor (hi * 2 ^ n) lo = hi * 2 ^ n + lo.
Proof.
  intros Hn Hlo.
  assert (Hdisj : Z.land (hi * 2 ^ n) lo = 0).
  { apply Z.bits_inj'; intros i Hi.
    rewrite Z.land_spec, Z.bits_0.
    destruct (Z.lt_ge_cases i n) as [Hlt|Hge].
    - rewrite Z.mul_pow2_bits_low by assumption. reflexivity.
    - destruct (Z.eq_dec lo 0) as [->|Hne].
      + rewrite Z.bits_0. apply andb_false_r.
      + rewrite (Z.bits_above_log2 lo i); [apply andb_false_r|lia|].
        apply Z.log2_lt_pow2; [lia|].
        apply Z.lt_le_trans with (2 ^ n); [lia|].
        apply Z.pow_le_mono_r; lia. }
  rewrite <- (Z.add_lor_land (hi * 2 ^ n) lo), Hdisj. lia.
Qed.

Lemma lor_add_eq (a b n hi : Z) :
  0 <= n -> a = hi * 2 ^ n -> 0 <= b < 2 ^ n -> Z.lor a b = a + b.
Proof. intros Hn -> Hb. apply lor_add; assumption. Qed.

Lemma land_3 a : Z.land a 3 = a mod 4.
Proof. exact (land_mask a 2 ltac:(lia)). Qed.
Lemma land_7 a : Z.land a 7 = a mod 8.
Proof. exact (land_mask a 3 ltac:(lia)). Qed.
Lemma land_15 a : Z.land a 15 = a mod 16.
Proof. exact (land_mask a 4 ltac:(lia)). Qed.
Lemma land_31 a : Z.land a 31 = a mod 32.
Proof. exact (land_mask a 5 ltac:(lia)). Qed.
Lemma land_63 a : Z.land a 63 = a mod 64.
Proof. exact (land_mask a 6 ltac:(lia)). Qed.
Lemma land_255 a : Z.land a 255 = a mod 256.
Proof. exact (land_mask a 8 ltac:(lia)). Qed.
Lemma land_1023 a : Z.land a 1023 = a mod 1024.
Proof. exact (land_mask a 10 ltac:(lia)). Qed.

(** Turn the shifts and masks of a goal into [/], [*] and [mod]. *)
Ltac bits_to_arith :=
  repeat first
    [ rewrite land_3 | rewrite land_7 | rewrite land_15 | rewrite land_31
    | rewrite land_63 | rewrite land_255 | rewrite land_1023
    | rewrite shiftr_div by lia | rewrite shiftl_mul by lia ];
  change (2 ^ 2) with 4 in *; change (2 ^ 4) with 16 in *;
  change (2 ^ 6) with 64 in *; change (2 ^ 8) with 256 in *;
  change (2 ^ 10) with 1024 in *; change (2 ^ 12) with 4096 in *;
  change (2 ^ 16) with 65536 in *; change (2 ^ 18) with 262144 in *.

(** Induction over a list three elements at a time (the Base64 grouping). *)
Lemma list_ind3 {A} (P : list A -> Prop) :
  P [] -> (forall a, P [a]) -> (forall a b, P [a; b]) ->
  (forall a b c rest, P rest -> P (a :: b :: c :: rest)) ->
  forall l, P l.
Proof.
  intros H0 H1 H2 H3.
  fix IH 1.
  intros [|a [|b [|c rest]]];
    [exact H0 | apply H1 | apply H2 | apply H3; apply IH].
Qed.

Example btoa_Man : Base64.btoa (lit "Man") = inr (lit "TWFu").
Proof. reflexivity. Qed.
Example btoa_Ma : Base64.btoa (lit "Ma") = inr (lit "TWE=").
Proof. reflexivity. Qed.
Example btoa_M : Base64.btoa (lit "M") = inr (lit "TQ==").
Proof. reflexivity. Qed.
Example atob_TQ : Base64.atob (lit "TQ==") = inr (lit "M").
Proof. reflexivity. Qed.
Example atob_no_padding : Base64.atob (lit "TWE") = inr (lit "Ma").
Proof. reflexivity. Qed.
Example atob_whitespace : Base64.atob (lit " T W F u ") = inr (lit "Man").
Proof. reflexivity. Qed.
Example atob_bad_char : Base64.atob (lit "TW-u") = inl InvalidCharacterError.
Proof. reflexivity. Qed.
Example atob_three_pads : Base64.atob (lit "T===") = inl InvalidCharacterError.
Proof. reflexivity. Qed.
Example atob_length_1 : Base64.atob (lit "TWFuT") = inl InvalidCharacterError.
Proof. reflexivity. Qed.

Example encode_abc : TextEncoder_encode (lit "abc") = [97; 98; 99].
Proof. reflexivity. Qed.
Example encode_euro : TextEncoder_encode [0x20AC] = [0xE2; 0x82; 0xAC].
Proof. reflexivity. Qed.
Example encode_emoji : TextEncoder_encode [0xD83D; 0xDE00] = [0xF0; 0x9F; 0x98; 0x80].
Proof. reflexivity. Qed.
Example encode_lone_surrogate : TextEncoder_encode [0xD83D; 97] = [0xEF; 0xBF; 0xBD; 97].
Proof. reflexivity. Qed.
Example decode_emoji : TextDecoder_decode [0xF0; 0x9F; 0x98; 0x80] = [0xD83D; 0xDE00].
Proof. reflexivity. Qed.
Example decode_invalid : TextDecoder_decode [0xFF; 97] = [0xFFFD; 97].
Proof. reflexivity. Qed.
Example decode_truncated : TextDecoder_decode [0xE2; 0x82] = [0xFFFD].
Proof. reflexivity. Qed.
Example decode_restore : TextDecoder_decode [0xE2; 97] = [0xFFFD; 97].
Proof. reflexivity. Qed.
Example decode_bom : TextDecoder_decode [0xEF; 0xBB; 0xBF; 97] = [97].
Proof. reflexivity. Qed.
Example decode_surrogate_bytes : TextDecoder_decode [0xED; 0xA0; 0x80] = [0xFFFD; 0xFFFD; 0xFFFD].
Proof. reflexivity. Qed.

Example rfc4648_TWFu : rfc4648_valid (lit "TWFu") = true.
Proof. reflexivity. Qed.
Example rfc4648_TWE_pad : rfc4648_valid (lit "TWE=") = true.
Proof. reflexivity. Qed.
Example rfc4648_TQ_pad : rfc4648_valid (lit "TQ==") = true.
Proof. reflexivity. Qed.
Example rfc4648_no_padding : rfc4648_valid (lit "TWE") = false.
Proof. reflexivity. Qed.
Example rfc4648_whitespace : rfc4648_valid (lit "TW Fu") = false.
Proof. reflexivity. Qed.
Example rfc4648_pad_inside : rfc4648_valid (lit "TQ=u") = false.
Proof. reflexivity. Qed.

Example valid_utf8_ascii : UTF8.valid [97; 98; 99] = true.
Proof. reflexivity. Qed.
Example valid_utf8_overlong : UTF8.valid [0xC0; 0x80] = false.
Proof. reflexivity. Qed.
Example valid_utf8_truncated : UTF8.valid [0xE2; 0x82] = false.
Proof. reflexivity. Qed.

(** The capacity of the source's parameters: 2048 / 8 - 2 * 32 - 2. *)
Example capacity_of_source_parameters :
  oaep_capacity (gen_modulusLength generateKey_params / 8)
                (hash_bytes (gen_hash generateKey_params)) = 190.
Proof. reflexivity. Qed.

Example useServices_outside :
  ServicesContext.useServices []
  = inl (ErrorMsg "useServices must be used within a ServicesProvider").
Proof. reflexivity. Qed.

(* ===================================================================== *)
(** ** Base64 *)
(* ===================================================================== *)

Ltac unbool :=
  repeat match goal with
  | H : _ && _ = true |- _ => apply andb_true_iff in H; destruct H
  | H : _ || _ = false |- _ => apply orb_false_iff in H; destruct H
  | H : negb _ = true |- _ => apply negb_true_iff in H
  | H : negb _ = false |- _ => apply negb_false_iff in H
  | H : (_ <=? _) = true |- _ => apply Z.leb_le in H
  | H : (_ <=? _) = false |- _ => apply Z.leb_gt in H
  | H : (_ <? _) = true |- _ => apply Z.ltb_lt in H
  | H : (_ <? _) = false |- _ => apply Z.ltb_ge in H
  | H : (_ =? _) = true |- _ => apply Z.eqb_eq in H
  | H : (_ =? _) = false |- _ => apply Z.eqb_neq in H
  end.

(** Decide the comparisons of a goal from linear facts in the context. *)
Ltac decide_tests :=
  repeat match goal with
  | |- context [?a <=? ?b] =>
      first [ rewrite (proj2 (Z.leb_le a b)) by lia
            | rewrite (proj2 (Z.leb_gt a b)) by lia ]
  | |- context [?a <? ?b] =>
      first [ rewrite (proj2 (Z.ltb_lt a b)) by lia
            | rewrite (proj2 (Z.ltb_ge a b)) by lia ]
  | |- context [?a =? ?b] =>
      first [ rewrite (proj2 (Z.eqb_eq a b)) by lia
            | rewrite (proj2 (Z.eqb_neq a b)) by lia ]
  end.

Module Base64Facts.
Import Base64.

Lemma sextet_of_char_of_sextet n :
  is_sextet n -> sextet_of_char (char_of_sextet n) = Some n.
Proof.
  unfold is_sextet, sextet_of_char, char_of_sextet. intros Hn.
  destruct (n <? 26) eqn:E1; unbool.
  { decide_tests. cbn [andb]. f_equal; lia. }
  destruct (n <? 52) eqn:E2; unbool.
  { decide_tests. cbn [andb]. f_equal; lia. }
  destruct (n <? 62) eqn:E3; unbool.
  { decide_tests. cbn [andb]. f_equal; lia. }
  destruct (n =? 62) eqn:E4; unbool.
  { subst. reflexivity. }
  assert (n = 63) by lia. subst. reflexivity.
Qed.

Lemma char_of_sextet_range n :
  is_sextet n -> 43 <= char_of_sextet n <= 122 /\ char_of_sextet n <> pad.
Proof.
  unfold is_sextet, char_of_sextet, pad. intros Hn.
  destruct (n <? 26) eqn:E1; unbool; [lia|].
  destruct (n <? 52) eqn:E2; unbool; [lia|].
  destruct (n <? 62) eqn:E3; unbool; [lia|].
  destruct (n =? 62); lia.
Qed.

Lemma char_not_whitespace n :
  is_sextet n -> is_ascii_whitespace (char_of_sextet n) = false.
Proof.
  intros Hn. destruct (char_of_sextet_range n Hn) as [Hr _].
  unfold is_ascii_whitespace. decide_tests. reflexivity.
Qed.

(** The four sextets of three bytes, and where they come from. *)
Lemma sextet_1 a : is_byte a -> is_sextet (Z.shiftr a 2).
Proof.
  unfold is_byte, is_sextet. intros. bits_to_arith.
  Z.div_mod_to_equations. lia.
Qed.

Lemma sextet_2_eq a b :
  is_byte a -> is_byte b ->
  Z.lor (Z.shiftl (Z.land a 3) 4) (Z.shiftr b 4) = a mod 4 * 16 + b / 16.
Proof.
  unfold is_byte. intros Ha Hb.
  rewrite (shiftl_mul _ 4), (shiftr_div _ 4), land_3 by lia.
  rewrite lor_add; [reflexivity|lia|].
  change (2 ^ 4) with 16. Z.div_mod_to_equations. lia.
Qed.

Lemma sextet_3_eq b c :
  is_byte b -> is_byte c ->
  Z.lor (Z.shiftl (Z.land b 15) 2) (Z.shiftr c 6) = b mod 16 * 4 + c / 64.
Proof.
  unfold is_byte. intros Hb Hc.
  rewrite (shiftl_mul _ 2), (shiftr_div _ 6), land_15 by lia.
  rewrite lor_add; [reflexivity|lia|].
  change (2 ^ 2) with 4. change (2 ^ 6) with 64.
  Z.div_mod_to_equations. lia.
Qed.

Lemma sextet_2_tail_eq a : Z.shiftl (Z.land a 3) 4 = a mod 4 * 16.
Proof. rewrite (shiftl_mul _ 4), land_3 by lia. reflexivity. Qed.

Lemma sextet_3_tail_eq b : Z.shiftl (Z.land b 15) 2 = b mod 16 * 4.
Proof. rewrite (shiftl_mul _ 2), land_15 by lia. reflexivity. Qed.

(** Joining sextets back: the 24-bit, 18-bit and 12-bit buffers. *)
Lemma buffer_24 v1 v2 v3 v4 :
  is_sextet v1 -> is_sextet v2 -> is_sextet v3 -> is_sextet v4 ->
  Z.lor (Z.lor (Z.lor (Z.shiftl v1 18) (Z.shiftl v2 12)) (Z.shiftl v3 6)) v4
  = v1 * 262144 + v2 * 4096 + v3 * 64 + v4.
Proof.
  unfold is_sextet. intros H1 H2 H3 H4.
  rewrite !shiftl_mul by lia.
  change (2 ^ 18) with 262144. change (2 ^ 12) with 4096.
  change (2 ^ 6) with 64.
  rewrite (lor_add_eq (v1 * 262144) (v2 * 4096) 18 v1);
    [ | lia | reflexivity | change (2 ^ 18) with 262144; lia ].
  rewrite (lor_add_eq _ (v3 * 64) 12 (v1 * 64 + v2));
    [ | lia | change (2 ^ 12) with 4096; lia
      | change (2 ^ 12) with 4096; lia ].
  rewrite (lor_add_eq _ v4 6 (v1 * 4096 + v2 * 64 + v3));
    [ | lia | change (2 ^ 6) with 64; lia | change (2 ^ 6) with 64; lia ].
  reflexivity.
Qed.

Lemma buffer_18 v1 v2 v3 :
  is_sextet v1 -> is_sextet v2 -> is_sextet v3 ->
  Z.lor (Z.lor (Z.shiftl v1 12) (Z.shiftl v2 6)) v3
  = v1 * 4096 + v2 * 64 + v3.
Proof.
  unfold is_sextet. intros H1 H2 H3.
  rewrite !shiftl_mul by lia.
  change (2 ^ 12) with 4096. change (2 ^ 6) with 64.
  rewrite (lor_add_eq (v1 * 4096) (v2 * 64) 12 v1);
    [ | lia | reflexivity | change (2 ^ 12) with 4096; lia ].
  rewrite (lor_add_eq _ v3 6 (v1 * 64 + v2));
    [ | lia | change (2 ^ 6) with 64; lia | change (2 ^ 6) with 64; lia ].
  reflexivity.
Qed.

Lemma buffer_12 v1 v2 :
  is_sextet v1 -> is_sextet v2 ->
  Z.lor (Z.shiftl v1 6) v2 = v1 * 64 + v2.
Proof.
  unfold is_sextet. intros H1 H2.
  rewrite !shiftl_mul by lia. change (2 ^ 6) with 64.
  rewrite (lor_add_eq (v1 * 64) v2 6 v1);
    [ | lia | reflexivity | change (2 ^ 6) with 64; lia ].
  reflexivity.
Qed.

(** Three bytes survive the trip through four sextets. *)
Lemma decode_group_3 a b c rest :
  is_byte a -> is_byte b -> is_byte c ->
  decode_sextets (a / 4 :: (a mod 4 * 16 + b / 16)
                  :: (b mod 16 * 4 + c / 64) :: c mod 64 :: rest)
  = a :: b :: c :: decode_sextets rest.
Proof.
  unfold is_byte. intros Ha Hb Hc.
  cbn [decode_sextets].
  rewrite buffer_24 by (unfold is_sextet; Z.div_mod_to_equations; lia).
  rewrite !land_255, !shiftr_div by lia.
  change (2 ^ 16) with 65536. change (2 ^ 8) with 256.
  f_equal; [|f_equal; [|f_equal]]; Z.div_mod_to_equations; lia.
Qed.

Lemma decode_group_2 a b :
  is_byte a -> is_byte b ->
  decode_sextets [a / 4; a mod 4 * 16 + b / 16; b mod 16 * 4] = [a; b].
Proof.
  unfold is_byte. intros Ha Hb.
  cbn [decode_sextets].
  rewrite buffer_18 by (unfold is_sextet; Z.div_mod_to_equations; lia).
  rewrite !land_255, !shiftr_div by lia.
  change (2 ^ 2) with 4. change (2 ^ 8) with 256.
  f_equal; [|f_equal]; Z.div_mod_to_equations; lia.
Qed.

Lemma decode_group_1 a :
  is_byte a -> decode_sextets [a / 4; a mod 4 * 16] = [a].
Proof.
  unfold is_byte. intros Ha.
  cbn [decode_sextets].
  rewrite buffer_12 by (unfold is_sextet; Z.div_mod_to_equations; lia).
  rewrite !land_255, !shiftr_div by lia.
  change (2 ^ 4) with 16.
  f_equal; Z.div_mod_to_equations; lia.
Qed.

Lemma mod4_step (n : nat) :
  Z.of_nat (S (S (S (S n)))) mod 4 = Z.of_nat n mod 4.
Proof.
  replace (Z.of_nat (S (S (S (S n))))) with (Z.of_nat n + 1 * 4) by lia.
  apply Z.mod_add. lia.
Qed.

Lemma encode_sextets_range bs : bytes bs -> Forall is_sextet (encode_sextets bs).
Proof.
  induction bs as [|a|a b|a b c rest IH] using list_ind3; intros Hb;
    repeat match goal with
           | H : bytes (_ :: _) |- _ =>
               apply bytes_cons_inv in H; destruct H
           end; unfold is_byte in *; cbn [encode_sextets];
    repeat (apply Forall_cons; [unfold is_sextet; Z.div_mod_to_equations; lia|]);
    auto.
Qed.

Lemma drop_trailing_pad_cons x l :
  x <> pad -> drop_trailing_pad (x :: l) = x :: drop_trailing_pad l.
Proof.
  intros Hx. cbn [drop_trailing_pad].
  destruct l as [|d [|e l]].
  - rewrite (proj2 (Z.eqb_neq x pad)) by assumption. reflexivity.
  - rewrite (proj2 (Z.eqb_neq x pad)) by assumption. reflexivity.
  - reflexivity.
Qed.

(** Removing the padding of an encoding leaves the characters of its
    sextets. *)
Lemma strip_encode bs :
  bytes bs ->
  drop_trailing_pad (encode bs) = map char_of_sextet (encode_sextets bs).
Proof.
  induction bs as [|a|a b|a b c rest IH] using list_ind3; intros Hb;
    repeat match goal with
           | H : bytes (_ :: _) |- _ =>
               apply bytes_cons_inv in H; destruct H
           end; cbn [encode encode_sextets map].
  - reflexivity.
  - rewrite sextet_2_tail_eq, (shiftr_div a 2) by lia. change (2 ^ 2) with 4.
    rewrite !drop_trailing_pad_cons
      by (apply char_of_sextet_range; unfold is_sextet, is_byte in *;
          Z.div_mod_to_equations; lia).
    reflexivity.
  - rewrite sextet_2_eq, sextet_3_tail_eq, (shiftr_div a 2) by (assumption || lia).
    change (2 ^ 2) with 4.
    rewrite !drop_trailing_pad_cons
      by (apply char_of_sextet_range; unfold is_sextet, is_byte in *;
          Z.div_mod_to_equations; lia).
    reflexivity.
  - rewrite sextet_2_eq, sextet_3_eq, land_63, (shiftr_div a 2)
      by (assumption || lia).
    change (2 ^ 2) with 4. change (2 ^ 6) with 64.
    rewrite !drop_trailing_pad_cons
      by (apply char_of_sextet_range; unfold is_sextet, is_byte in *;
          Z.div_mod_to_equations; lia).
    rewrite IH by assumption. reflexivity.
Qed.

Lemma sextets_of_chars vs :
  Forall is_sextet vs -> sextets (map char_of_sextet vs) = Some vs.
Proof.
  induction 1 as [|v vs Hv _ IH]; cbn [map sextets]; [reflexivity|].
  rewrite sextet_of_char_of_sextet, IH by assumption. reflexivity.
Qed.

Lemma decode_encode_sextets bs :
  bytes bs -> decode_sextets (encode_sextets bs) = bs.
Proof.
  induction bs as [|a|a b|a b c rest IH] using list_ind3; intros Hb;
    repeat match goal with
           | H : bytes (_ :: _) |- _ =>
               apply bytes_cons_inv in H; destruct H
           end.
  - reflexivity.
  - apply decode_group_1; assumption.
  - apply decode_group_2; assumption.
  - cbn [encode_sextets]. rewrite decode_group_3 by assumption.
    rewrite IH by assumption. reflexivity.
Qed.

Lemma encode_sextets_length bs :
  Z.of_nat (List.length (encode_sextets bs)) mod 4 <> 1.
Proof.
  induction bs as [|a|a b|a b c rest IH] using list_ind3;
    cbn [encode_sextets List.length]; try (cbv; discriminate).
  rewrite mod4_step. assumption.
Qed.

Lemma encode_length bs : Z.of_nat (List.length (encode bs)) mod 4 = 0.
Proof.
  induction bs as [|a|a b|a b c rest IH] using list_ind3;
    cbn [encode List.length]; try reflexivity.
  rewrite mod4_step. assumption.
Qed.

Lemma encode_no_whitespace bs :
  bytes bs -> remove_whitespace (encode bs) = encode bs.
Proof.
  unfold remove_whitespace.
  induction bs as [|a|a b|a b c rest IH] using list_ind3; intros Hb;
    repeat match goal with
           | H : bytes (_ :: _) |- _ =>
               apply bytes_cons_inv in H; destruct H
           end; cbn [encode filter].
  - reflexivity.
  - rewrite sextet_2_tail_eq, (shiftr_div a 2) by lia. change (2 ^ 2) with 4.
    rewrite !char_not_whitespace
      by (unfold is_sextet, is_byte in *; Z.div_mod_to_equations; lia).
    reflexivity.
  - rewrite sextet_2_eq, sextet_3_tail_eq, (shiftr_div a 2) by (assumption || lia).
    change (2 ^ 2) with 4.
    rewrite !char_not_whitespace
      by (unfold is_sextet, is_byte in *; Z.div_mod_to_equations; lia).
    reflexivity.
  - rewrite sextet_2_eq, sextet_3_eq, land_63, (shiftr_div a 2)
      by (assumption || lia).
    change (2 ^ 2) with 4. change (2 ^ 6) with 64.
    rewrite !char_not_whitespace
      by (unfold is_sextet, is_byte in *; Z.div_mod_to_equations; lia).
    cbn [negb]. rewrite IH by assumption. reflexivity.
Qed.

(** [atob] undoes [btoa] on every byte sequence. *)
Lemma forgiving_decode_encode bs :
  bytes bs -> forgiving_decode (encode bs) = Some bs.
Proof.
  intros Hb. unfold forgiving_decode, strip_padding.
  rewrite encode_no_whitespace by assumption.
  rewrite encode_length. cbn [Z.eqb].
  rewrite strip_encode by assumption.
  rewrite length_map.
  rewrite (proj2 (Z.eqb_neq _ 1) (encode_sextets_length bs)).
  rewrite sextets_of_chars by (apply encode_sextets_range; assumption).
  rewrite decode_encode_sextets by assumption. reflexivity.
Qed.

Lemma btoa_bytes bs : bytes bs -> btoa bs = inr (encode bs).
Proof.
  intros Hb. unfold btoa.
  replace (forallb (fun c => c <=? 255) bs) with true; [reflexivity|].
  symmetry. apply forallb_forall. intros x Hx.
  unfold bytes in Hb. rewrite Forall_forall in Hb.
  specialize (Hb x Hx). unfold is_byte in Hb. apply Z.leb_le. lia.
Qed.

Lemma atob_encode bs : bytes bs -> atob (encode bs) = inr bs.
Proof.
  intros Hb. unfold atob. rewrite forgiving_decode_encode by assumption.
  reflexivity.
Qed.

(** Without its padding, a Base64 text is the characters of its sextets, and
    [atob] decodes it just the same. *)
Lemma unpadded_chars vs :
  Forall is_sextet vs ->
  unpadded (map char_of_sextet vs) = map char_of_sextet vs.
Proof.
  unfold unpadded.
  induction 1 as [|v vs Hv _ IH]; [reflexivity|].
  cbn [map filter].
  rewrite (proj2 (Z.eqb_neq _ pad) (proj2 (char_of_sextet_range v Hv))).
  cbn [negb]. rewrite IH. reflexivity.
Qed.

Lemma unpadded_encode bs :
  bytes bs -> unpadded (encode bs) = map char_of_sextet (encode_sextets bs).
Proof.
  intros Hb. rewrite <- (unpadded_chars _ (encode_sextets_range bs Hb)).
  unfold unpadded. revert Hb.
  induction bs as [|a|a b|a b c rest IH] using list_ind3; intros Hb;
    repeat match goal with
           | H : bytes (_ :: _) |- _ =>
               apply bytes_cons_inv in H; destruct H
           end; cbn [encode encode_sextets map filter].
  - reflexivity.
  - rewrite sextet_2_tail_eq, (shiftr_div a 2) by lia. change (2 ^ 2) with 4.
    rewrite Z.eqb_refl. reflexivity.
  - rewrite sextet_2_eq, sextet_3_tail_eq, (shiftr_div a 2) by (assumption || lia).
    change (2 ^ 2) with 4. rewrite Z.eqb_refl. reflexivity.
  - rewrite sextet_2_eq, sextet_3_eq, land_63, (shiftr_div a 2)
      by (assumption || lia).
    change (2 ^ 2) with 4. change (2 ^ 6) with 64.
    rewrite IH by assumption. reflexivity.
Qed.

Lemma drop_trailing_pad_chars vs :
  Forall is_sextet vs ->
  drop_trailing_pad (map char_of_sextet vs) = map char_of_sextet vs.
Proof.
  induction 1 as [|v vs Hv _ IH]; [reflexivity|].
  cbn [map]. rewrite drop_trailing_pad_cons, IH;
    [reflexivity|apply char_of_sextet_range; assumption].
Qed.

Lemma remove_whitespace_chars vs :
  Forall is_sextet vs ->
  remove_whitespace (map char_of_sextet vs) = map char_of_sextet vs.
Proof.
  unfold remove_whitespace.
  induction 1 as [|v vs Hv _ IH]; [reflexivity|].
  cbn [map filter]. rewrite char_not_whitespace by assumption.
  cbn [negb]. rewrite IH. reflexivity.
Qed.

Lemma forgiving_decode_unpadded bs :
  bytes bs -> forgiving_decode (unpadded (encode bs)) = Some bs.
Proof.
  intros Hb. rewrite unpadded_encode by assumption.
  pose proof (encode_sextets_range bs Hb) as Hr.
  unfold forgiving_decode, strip_padding.
  rewrite remove_whitespace_chars by assumption.
  assert (E : (if Z.of_nat (List.length (map char_of_sextet (encode_sextets bs)))
                    mod 4 =? 0
               then drop_trailing_pad (map char_of_sextet (encode_sextets bs))
               else map char_of_sextet (encode_sextets bs))
              = map char_of_sextet (encode_sextets bs)).
  { destruct (_ =? 0); [apply drop_trailing_pad_chars; assumption|reflexivity]. }
  rewrite E, length_map.
  rewrite (proj2 (Z.eqb_neq _ 1) (encode_sextets_length bs)).
  rewrite sextets_of_chars by assumption.
  rewrite decode_encode_sextets by assumption. reflexivity.
Qed.

Lemma atob_unpadded bs : bytes bs -> atob (unpadded (encode bs)) = inr bs.
Proof.
  intros Hb. unfold atob. rewrite forgiving_decode_unpadded by assumption.
  reflexivity.
Qed.

Lemma mod3_step (n : nat) : Z.of_nat (S (S (S n))) mod 3 = Z.of_nat n mod 3.
Proof.
  replace (Z.of_nat (S (S (S n)))) with (Z.of_nat n + 1 * 3) by lia.
  apply Z.mod_add. lia.
Qed.

(** When the number of bytes is not a multiple of three, the number of
    characters without padding is not a multiple of four. *)
Lemma unpadded_length bs :
  bytes bs -> Z.of_nat (List.length bs) mod 3 <> 0 ->
  Z.of_nat (List.length (unpadded (encode bs))) mod 4 <> 0.
Proof.
  intros Hb. rewrite unpadded_encode, length_map by assumption. clear Hb.
  induction bs as [|a|a b|a b c rest IH] using list_ind3;
    cbn [encode_sextets List.length].
  - intros H; exfalso; apply H; reflexivity.
  - intros _. cbv. discriminate.
  - intros _. cbv. discriminate.
  - rewrite mod3_step, mod4_step. exact IH.
Qed.

(** The Base64 text determines the bytes. *)
Lemma encode_injective bs bs' :
  bytes bs -> bytes bs' -> encode bs = encode bs' -> bs = bs'.
Proof.
  intros Hb Hb' E.
  pose proof (forgiving_decode_encode bs Hb) as D.
  rewrite E, forgiving_decode_encode in D by assumption.
  congruence.
Qed.

End Base64Facts.

(* ===================================================================== *)
(** ** UTF-8 *)
(* ===================================================================== *)

Module UTF8Facts.
Import UTF8.

Ltac dm := Z.div_mod_to_equations; lia.

Lemma continuation_byte x :
  Z.lor 0x80 (Z.land x 0x3F) = 128 + x mod 64.
Proof.
  rewrite land_63.
  apply (lor_add_eq 128 (x mod 64) 6 2); [lia|reflexivity|].
  change (2 ^ 6) with 64. dm.
Qed.

Ltac norm_shifts :=
  change (6 * Z.of_nat 0) with 0; change (6 * Z.of_nat 1) with 6;
  change (6 * Z.of_nat 2) with 12; change (6 * Z.of_nat 3) with 18.

Ltac norm_seen :=
  change (0 + 1 =? 1) with true; change (0 + 1 =? 2) with false;
  change (0 + 1 =? 3) with false; change (0 + 1 + 1 =? 2) with true;
  change (0 + 1 + 1 =? 3) with false; change (0 + 1 + 1 + 1 =? 3) with true;
  cbn [run].

(** The encoder, by length of the result. *)
Lemma encode_1 cp : 0 <= cp <= 0x7F -> encode_code_point cp = [cp].
Proof. intros H. unfold encode_code_point. decide_tests. reflexivity. Qed.

Lemma encode_2 cp :
  0x80 <= cp <= 0x7FF ->
  encode_code_point cp = [cp / 64 + 192; 128 + cp mod 64].
Proof.
  intros H. unfold encode_code_point. decide_tests.
  cbn [continuation]. norm_shifts.
  rewrite !continuation_byte, Z.shiftr_0_r, (shiftr_div cp 6) by lia.
  reflexivity.
Qed.

Lemma encode_3 cp :
  0x800 <= cp <= 0xFFFF ->
  encode_code_point cp
  = [cp / 4096 + 224; 128 + (cp / 64) mod 64; 128 + cp mod 64].
Proof.
  intros H. unfold encode_code_point. decide_tests.
  cbn [continuation]. norm_shifts.
  rewrite !continuation_byte, Z.shiftr_0_r.
  rewrite (shiftr_div cp 6), (shiftr_div cp 12) by lia.
  reflexivity.
Qed.

Lemma encode_4 cp :
  0x10000 <= cp <= 0x10FFFF ->
  encode_code_point cp
  = [cp / 262144 + 240; 128 + (cp / 4096) mod 64;
     128 + (cp / 64) mod 64; 128 + cp mod 64].
Proof.
  intros H. unfold encode_code_point. decide_tests.
  cbn [continuation]. norm_shifts.
  rewrite !continuation_byte, Z.shiftr_0_r.
  rewrite (shiftr_div cp 6), (shiftr_div cp 12), (shiftr_div cp 18) by lia.
  reflexivity.
Qed.

Lemma encode_code_point_bytes cp :
  0 <= cp <= 0x10FFFF -> bytes (encode_code_point cp).
Proof.
  intros H.
  destruct (Z.le_gt_cases cp 0x7F);
    [rewrite encode_1 by lia|
     destruct (Z.le_gt_cases cp 0x7FF);
     [rewrite encode_2 by lia|
      destruct (Z.le_gt_cases cp 0xFFFF);
      [rewrite encode_3 by lia|rewrite encode_4 by lia]]];
    repeat (apply Forall_cons; [unfold is_byte; dm|]); apply Forall_nil.
Qed.

(** The decoder's handler, case by case. *)
Lemma handler_ascii b : 0 <= b <= 0x7F -> handler init b = Emit b init.
Proof.
  intros H. unfold handler, between. cbn [bytes_needed init Z.eqb].
  decide_tests. reflexivity.
Qed.

Lemma handler_lead2 b :
  0xC2 <= b <= 0xDF ->
  handler init b = Continue (mkState (b mod 32) 0 1 0x80 0xBF).
Proof.
  intros H. unfold handler, between.
  cbn [bytes_needed bytes_seen lower_boundary upper_boundary init Z.eqb].
  decide_tests. cbn [andb]. rewrite land_31. reflexivity.
Qed.

Lemma handler_lead3 b :
  0xE0 <= b <= 0xEF ->
  handler init b
  = Continue (mkState (b mod 16) 0 2
                      (if b =? 0xE0 then 0xA0 else 0x80)
                      (if b =? 0xED then 0x9F else 0xBF)).
Proof.
  intros H. unfold handler, between.
  cbn [bytes_needed bytes_seen lower_boundary upper_boundary init Z.eqb].
  rewrite (proj2 (Z.leb_le 0 b)), (proj2 (Z.leb_gt b 0x7F)),
    (proj2 (Z.leb_le 0xC2 b)), (proj2 (Z.leb_gt b 0xDF)),
    (proj2 (Z.leb_le 0xE0 b)), (proj2 (Z.leb_le b 0xEF)) by lia.
  cbn [andb]. rewrite land_15. reflexivity.
Qed.

Lemma handler_lead4 b :
  0xF0 <= b <= 0xF4 ->
  handler init b
  = Continue (mkState (b mod 8) 0 3
                      (if b =? 0xF0 then 0x90 else 0x80)
                      (if b =? 0xF4 then 0x8F else 0xBF)).
Proof.
  intros H. unfold handler, between.
  cbn [bytes_needed bytes_seen lower_boundary upper_boundary init Z.eqb].
  rewrite (proj2 (Z.leb_le 0 b)), (proj2 (Z.leb_gt b 0x7F)),
    (proj2 (Z.leb_le 0xC2 b)), (proj2 (Z.leb_gt b 0xDF)),
    (proj2 (Z.leb_le 0xE0 b)), (proj2 (Z.leb_gt b 0xEF)),
    (proj2 (Z.leb_le 0xF0 b)), (proj2 (Z.leb_le b 0xF4)) by lia.
  cbn [andb]. rewrite land_7. reflexivity.
Qed.

Lemma handler_continuation c seen needed lo hi b :
  needed <> 0 -> lo <= b <= hi -> 0x80 <= b <= 0xBF ->
  handler (mkState c seen needed lo hi) b
  = if seen + 1 =? needed then Emit (c * 64 + (b - 128)) init
    else Continue (mkState (c * 64 + (b - 128)) (seen + 1) needed 0x80 0xBF).
Proof.
  intros Hn Hr Hb. unfold handler, between.
  cbn [bytes_needed bytes_seen lower_boundary upper_boundary code_point].
  rewrite (proj2 (Z.eqb_neq needed 0)) by assumption.
  rewrite (proj2 (Z.leb_le lo b)), (proj2 (Z.leb_le b hi)) by lia.
  cbn [andb negb].
  assert (E : Z.lor (Z.shiftl c 6) (Z.land b 63) = c * 64 + (b - 128)).
  { rewrite land_63, shiftl_mul by lia. change (2 ^ 6) with 64.
    rewrite (lor_add_eq (c * 64) (b mod 64) 6 c);
      [ dm | lia | reflexivity | change (2 ^ 6) with 64; dm ]. }
  rewrite E. reflexivity.
Qed.

(** Decoding the bytes of one scalar value gives it back and leaves the
    decoder in its initial state. *)
Lemma run_encode_code_point cp rest :
  is_scalar cp ->
  run init (encode_code_point cp ++ rest) = cp :: run init rest.
Proof.
  intros [Hr Hs].
  destruct (Z.le_gt_cases cp 0x7F) as [H1|H1].
  { rewrite encode_1 by lia. cbn [app run].
    rewrite handler_ascii by lia. reflexivity. }
  destruct (Z.le_gt_cases cp 0x7FF) as [H2|H2].
  { rewrite encode_2 by lia. cbn [app run].
    rewrite handler_lead2 by dm.
    rewrite handler_continuation by (lia || dm).
    norm_seen. f_equal. dm. }
  destruct (Z.le_gt_cases cp 0xFFFF) as [H3|H3].
  { rewrite encode_3 by lia. cbn [app run].
    rewrite handler_lead3 by dm.
    assert (Hlo : (if cp / 4096 + 224 =? 0xE0 then 0xA0 else 0x80)
                  <= 128 + (cp / 64) mod 64).
    { destruct (cp / 4096 + 224 =? 0xE0) eqn:E; unbool; dm. }
    assert (Hhi : 128 + (cp / 64) mod 64
                  <= (if cp / 4096 + 224 =? 0xED then 0x9F else 0xBF)).
    { destruct (cp / 4096 + 224 =? 0xED) eqn:E; unbool; dm. }
    rewrite handler_continuation by (lia || dm).
    norm_seen.
    rewrite handler_continuation by (lia || dm).
    norm_seen. f_equal. dm. }
  { rewrite encode_4 by lia. cbn [app run].
    rewrite handler_lead4 by dm.
    assert (Hlo : (if cp / 262144 + 240 =? 0xF0 then 0x90 else 0x80)
                  <= 128 + (cp / 4096) mod 64).
    { destruct (cp / 262144 + 240 =? 0xF0) eqn:E; unbool; dm. }
    assert (Hhi : 128 + (cp / 4096) mod 64
                  <= (if cp / 262144 + 240 =? 0xF4 then 0x8F else 0xBF)).
    { destruct (cp / 262144 + 240 =? 0xF4) eqn:E; unbool; dm. }
    rewrite handler_continuation by (lia || dm).
    norm_seen.
    rewrite handler_continuation by (lia || dm).
    norm_seen.
    rewrite handler_continuation by (lia || dm).
    norm_seen. f_equal. dm. }
Qed.

Lemma decode_encode cps :
  Forall is_scalar cps -> decode (encode cps) = cps.
Proof.
  unfold decode, encode.
  induction 1 as [|cp cps Hcp _ IH]; [reflexivity|].
  cbn [flat_map]. rewrite run_encode_code_point by assumption.
  rewrite IH. reflexivity.
Qed.

Lemma encode_bytes cps :
  Forall is_scalar cps -> bytes (encode cps).
Proof.
  unfold encode.
  induction 1 as [|cp cps [Hcp _] _ IH]; [apply Forall_nil|].
  cbn [flat_map]. apply bytes_app; [|assumption].
  apply encode_code_point_bytes; assumption.
Qed.

End UTF8Facts.

(* ===================================================================== *)
(** ** UTF-16 and the two text codecs *)
(* ===================================================================== *)

(** Induction over a list where the step may also use the tail's tail (a
    surrogate pair takes two code units). *)
Lemma list_ind_pair {A} (P : list A -> Prop) :
  P [] ->
  (forall c rest, P rest -> P (tl rest) -> P (c :: rest)) ->
  forall l, P l.
Proof.
  intros H0 Hstep l.
  assert (H : P l /\ P (tl l)); [|exact (proj1 H)].
  induction l as [|c rest [IH1 IH2]]; cbn [tl]; split; auto.
Qed.

Module UTF16Facts.
Import UTF16.

Ltac dm := Z.div_mod_to_equations; lia.

Lemma pair_scalar c d :
  is_high_surrogate c = true -> is_low_surrogate d = true ->
  0x10000 <= 0x10000 + Z.shiftl (c - 0xD800) 10 + (d - 0xDC00) <= 0x10FFFF.
Proof.
  unfold is_high_surrogate, is_low_surrogate. intros Hc Hd. unbool.
  rewrite shiftl_mul by lia. change (2 ^ 10) with 1024. lia.
Qed.

Lemma of_code_point_pair c d :
  is_high_surrogate c = true -> is_low_surrogate d = true ->
  of_code_point (0x10000 + Z.shiftl (c - 0xD800) 10 + (d - 0xDC00)) = [c; d].
Proof.
  intros Hc Hd. pose proof (pair_scalar c d Hc Hd) as Hr.
  unfold of_code_point. rewrite (proj2 (Z.ltb_ge _ _)) by lia.
  unfold is_high_surrogate, is_low_surrogate in *. unbool.
  rewrite land_1023, shiftr_div, shiftl_mul by lia.
  change (2 ^ 10) with 1024.
  f_equal; [|f_equal]; dm.
Qed.

Lemma to_scalar_values_scalar s :
  js_string s -> Forall is_scalar (to_scalar_values s).
Proof.
  induction s as [|c rest IH1 IH2] using list_ind_pair; intros Hs.
  { apply Forall_nil. }
  inversion Hs as [|? ? Hc Hrest]; subst.
  cbn [to_scalar_values].
  destruct (is_high_surrogate c) eqn:Eh.
  - destruct rest as [|d rest'].
    + apply Forall_cons; [|apply Forall_nil].
      unfold is_scalar, REPLACEMENT; lia.
    + destruct (is_low_surrogate d) eqn:El.
      * apply Forall_cons.
        { pose proof (pair_scalar c d Eh El). unfold is_scalar. lia. }
        apply IH2. inversion Hrest; assumption.
      * apply Forall_cons; [unfold is_scalar, REPLACEMENT; lia|].
        apply IH1; assumption.
  - destruct (is_low_surrogate c) eqn:El.
    + apply Forall_cons; [unfold is_scalar, REPLACEMENT; lia|].
      apply IH1; assumption.
    + apply Forall_cons; [|apply IH1; assumption].
      unfold is_high_surrogate, is_low_surrogate, is_scalar, is_code_unit in *.
      apply andb_false_iff in Eh, El.
      destruct Eh, El; unbool; lia.
Qed.

(** A string without unpaired surrogates is rebuilt from its scalar
    values. *)
Lemma of_to_scalar_values s :
  js_string s -> well_formed s = true ->
  of_code_points (to_scalar_values s) = s.
Proof.
  unfold of_code_points.
  induction s as [|c rest IH1 IH2] using list_ind_pair; intros Hs Hw.
  { reflexivity. }
  inversion Hs as [|? ? Hc Hrest]; subst.
  cbn [to_scalar_values well_formed] in *.
  destruct (is_high_surrogate c) eqn:Eh.
  - destruct rest as [|d rest']; [discriminate|].
    apply andb_true_iff in Hw. destruct Hw as [El Hw].
    rewrite El. cbn [flat_map].
    rewrite of_code_point_pair by assumption.
    cbn [tl] in IH2. rewrite IH2; [reflexivity| |assumption].
    inversion Hrest; assumption.
  - apply andb_true_iff in Hw. destruct Hw as [El Hw].
    apply negb_true_iff in El. rewrite El. cbn [flat_map].
    rewrite IH1 by assumption.
    unfold of_code_point, is_code_unit in *.
    rewrite (proj2 (Z.ltb_lt c 0x10000)) by lia. reflexivity.
Qed.

(** Only a leading U+FEFF code unit gives a leading U+FEFF scalar value. *)
Lemma strip_bom_to_scalar_values s :
  no_leading_bom s = true ->
  strip_bom (to_scalar_values s) = to_scalar_values s.
Proof.
  destruct s as [|c rest]; [reflexivity|].
  cbn [no_leading_bom to_scalar_values]. intros Hb. unbool.
  destruct (is_high_surrogate c) eqn:Eh.
  - destruct rest as [|d rest']; [reflexivity|].
    destruct (is_low_surrogate d) eqn:El; [|reflexivity].
    pose proof (pair_scalar c d Eh El).
    cbn [strip_bom]. unfold BOM.
    rewrite (proj2 (Z.eqb_neq _ 0xFEFF)) by lia. reflexivity.
  - destruct (is_low_surrogate c); [reflexivity|].
    cbn [strip_bom]. rewrite (proj2 (Z.eqb_neq c BOM)) by assumption.
    reflexivity.
Qed.

End UTF16Facts.

(** What [decrypt] makes of what [encrypt] encoded. *)
Lemma TextEncoder_encode_bytes s : js_string s -> bytes (TextEncoder_encode s).
Proof.
  intros Hs. apply UTF8Facts.encode_bytes.
  apply UTF16Facts.to_scalar_values_scalar; assumption.
Qed.

Lemma TextDecoder_TextEncoder s :
  js_string s ->
  TextDecoder_decode (TextEncoder_encode s)
  = UTF16.of_code_points (strip_bom (UTF16.to_scalar_values s)).
Proof.
  intros Hs. unfold TextDecoder_decode, TextEncoder_encode.
  rewrite UTF8Facts.decode_encode
    by (apply UTF16Facts.to_scalar_values_scalar; assumption).
  reflexivity.
Qed.

(** Text without unpaired surrogates and without U+FEFF in front passes
    through the two codecs unchanged. *)
Lemma text_roundtrip s :
  js_string s -> UTF16.well_formed s = true -> no_leading_bom s = true ->
  TextDecoder_decode (TextEncoder_encode s) = s.
Proof.
  intros Hs Hw Hb.
  rewrite TextDecoder_TextEncoder by assumption.
  rewrite UTF16Facts.strip_bom_to_scalar_values by assumption.
  apply UTF16Facts.of_to_scalar_values; assumption.
Qed.

Lemma js_string_lit s : js_string (lit s).
Proof.
  unfold js_string, lit. apply Forall_forall. intros x Hx.
  apply in_map_iff in Hx. destruct Hx as [a [<- _]].
  unfold is_code_unit.
  pose proof (N_ascii_bounded a). lia.
Qed.

(* ===================================================================== *)
(** ** The methods, run *)
(* ===================================================================== *)

Section Methods.

Variable P : SubtleCrypto.
Local Open Scope js_scope.

Lemma holds_drew_and_called c (w : World P) this pk sk :
  holds w this pk sk -> holds (drew_and_called c w) this pk sk.
Proof. exact (fun H => H). Qed.

Lemma holds_called c (w : World P) this pk sk :
  holds w this pk sk -> holds (called c w) this pk sk.
Proof. exact (fun H => H). Qed.

(** [encrypt] is one provider call on the encoded text, then Base64. *)
Lemma encrypt_run (w : World P) this pk sk data :
  holds w this pk sk ->
  encrypt this data w =
  match encrypt_op P oaep_params pk (entropy w (draws w))
                   (TextEncoder_encode data) with
  | inr block => (Base64.btoa (fromCharCode block),
                  drew_and_called CallEncrypt w)
  | inl e => (inl e, drew_and_called CallEncrypt w)
  end.
Proof.
  intros H. unfold holds in H.
  unfold encrypt, bind, deref, subtle_encrypt, bind, record_call, draw, lift.
  cbn [heap]. rewrite H. cbn [publicKey entropy draws trace heap].
  destruct (encrypt_op P oaep_params pk _ _); reflexivity.
Qed.

(** [decrypt] is [atob], one provider call, then text decoding. *)
Lemma decrypt_run (w : World P) this pk sk data block :
  holds w this pk sk ->
  Base64.atob data = inr block ->
  decrypt this data w =
  match decrypt_op P oaep_params sk (Uint8Array_from_charCodes block) with
  | inr plain => (inr (TextDecoder_decode plain), called CallDecrypt w)
  | inl e => (inl e, called CallDecrypt w)
  end.
Proof.
  intros H Ha. unfold holds in H.
  unfold decrypt, bind, deref, subtle_decrypt, bind, record_call, lift.
  rewrite Ha, H. cbn [privateKey heap].
  destruct (decrypt_op P oaep_params sk _); reflexivity.
Qed.

(** When [atob] throws, [decrypt] throws the same and the host is left as
    it was. *)
Lemma decrypt_atob_throws (w : World P) this data e :
  Base64.atob data = inl e -> decrypt this data w = (inl e, w).
Proof.
  intros Ha. unfold decrypt, bind, lift. rewrite Ha. reflexivity.
Qed.

(** With a 2048-bit RSA-OAEP/SHA-256 pair: a text of at most 190 bytes is
    encrypted, and decrypting the result gives the text as the two codecs
    leave it. *)
Lemma decrypt_encrypt (w : World P) this pk sk m :
  holds w this pk sk -> oaep_pair P 256 32 pk sk -> js_string m ->
  Z.of_nat (List.length (TextEncoder_encode m)) <= 190 ->
  exists block,
    (bytes block /\ Z.of_nat (List.length block) = 256) /\
    encrypt_op P oaep_params pk (entropy w (draws w)) (TextEncoder_encode m)
      = inr block /\
    encrypt this m w
      = (inr (Base64.encode block), drew_and_called CallEncrypt w) /\
    forall w', holds w' this pk sk ->
      decrypt this (Base64.encode block) w'
      = (inr (TextDecoder_decode (TextEncoder_encode m)),
         called CallDecrypt w').
Proof.
  intros Hh Hp Hm Hlen.
  destruct (oaep_correct _ _ _ _ _ Hp (entropy w (draws w))
              (TextEncoder_encode m) (TextEncoder_encode_bytes m Hm)
              ltac:(unfold oaep_capacity; lia))
    as (block & He & Hb & Hl & Hd).
  exists block. split; [split; assumption|]. split; [assumption|]. split.
  - rewrite (encrypt_run w this pk sk m Hh), He.
    rewrite fromCharCode_bytes, Base64Facts.btoa_bytes by assumption.
    reflexivity.
  - intros w' Hh'.
    rewrite (decrypt_run w' this pk sk _ block Hh'
               (Base64Facts.atob_encode block Hb)).
    rewrite Uint8Array_from_charCodes_bytes, Hd by assumption.
    reflexivity.
Qed.

(** The two calls in sequence. *)
Lemma encrypt_then_decrypt (w : World P) this pk sk m :
  holds w this pk sk -> oaep_pair P 256 32 pk sk -> js_string m ->
  Z.of_nat (List.length (TextEncoder_encode m)) <= 190 ->
  (c <- encrypt this m ;; decrypt this c) w
  = (inr (TextDecoder_decode (TextEncoder_encode m)),
     called CallDecrypt (drew_and_called CallEncrypt w)).
Proof.
  intros Hh Hp Hm Hlen.
  destruct (decrypt_encrypt w this pk sk m Hh Hp Hm Hlen)
    as (block & _ & _ & He & Hd).
  unfold bind at 1. rewrite He. apply Hd.
  apply holds_drew_and_called; assumption.
Qed.

(** [generateKeyPair] and [New], when the provider returns a pair. *)
Lemma generateKeyPair_run (w : World P) pk sk :
  generateKey P generateKey_params true [UEncrypt; UDecrypt]
              (entropy w (draws w)) = inr (pk, sk) ->
  generateKeyPair w
  = (inr (mkInstance pk sk), drew_and_called CallGenerateKey w).
Proof.
  intros Hg.
  unfold generateKeyPair, subtle_generateKey, bind, record_call, draw, lift, ret.
  cbn [entropy draws trace heap]. rewrite Hg. reflexivity.
Qed.

Lemma New_run (w : World P) pk sk :
  generateKey P generateKey_params true [UEncrypt; UDecrypt]
              (entropy w (draws w)) = inr (pk, sk) ->
  exists w',
    New w = (inr (List.length (heap w)), w') /\
    holds w' (List.length (heap w)) pk sk /\
    entropy w' = entropy w /\ draws w' = S (draws w).
Proof.
  intros Hg. eexists. split; [|split; [|split]].
  - unfold New, bind at 1. rewrite (generateKeyPair_run w pk sk Hg).
    unfold constructor, alloc. cbn [publicKey privateKey]. reflexivity.
  - unfold holds, drew_and_called. cbn [heap].
    rewrite nth_error_app2 by lia. rewrite Nat.sub_diag. reflexivity.
  - reflexivity.
  - reflexivity.
Qed.

End Methods.

(* ===================================================================== *)
(** ** The model provider meets the contract *)
(* ===================================================================== *)

Module ModelProviderFacts.
Import ModelProvider.

Lemma bytes_firstn n l : bytes l -> bytes (firstn n l).
Proof.
  intros H. rewrite <- (firstn_skipn n l) in H.
  apply Forall_app in H. exact (proj1 H).
Qed.

Lemma app_same_length {A} (a a' b b' : list A) :
  List.length a = List.length a' -> a ++ b = a' ++ b' -> a = a' /\ b = b'.
Proof.
  revert a'. induction a as [|x a IH]; intros [|x' a'] Hl E;
    try discriminate.
  - split; [reflexivity|assumption].
  - cbn [app] in E. injection E as -> E. cbn [List.length] in Hl.
    destruct (IH a' ltac:(lia) E) as [-> ->]. split; reflexivity.
Qed.

Lemma to_bytes_bytes l : bytes (to_bytes l).
Proof.
  unfold bytes, to_bytes. apply Forall_forall. intros x Hx.
  apply in_map_iff in Hx. destruct Hx as [y [<- _]].
  unfold is_byte. Z.div_mod_to_equations. lia.
Qed.

Lemma to_bytes_id l : bytes l -> to_bytes l = l.
Proof.
  unfold to_bytes. induction 1 as [|b l Hb _ IH]; [reflexivity|].
  cbn [map]. rewrite IH. unfold is_byte in Hb.
  rewrite Z.mod_small by lia. reflexivity.
Qed.

Lemma to_bytes_length l : List.length (to_bytes l) = List.length l.
Proof. apply length_map. Qed.

Lemma repeat_bytes n : bytes (repeat 0 n).
Proof.
  unfold bytes. apply Forall_forall. intros x Hx.
  apply repeat_spec in Hx. subst. unfold is_byte. lia.
Qed.

Lemma seed32_length seed : List.length (seed32 seed) = 32%nat.
Proof.
  unfold seed32. rewrite length_firstn, length_app, repeat_length. lia.
Qed.

Lemma seed32_bytes seed : bytes (seed32 seed).
Proof.
  unfold seed32. apply bytes_firstn.
  apply bytes_app; [apply to_bytes_bytes|apply repeat_bytes].
Qed.

Lemma seed32_id seed :
  bytes seed -> Z.of_nat (List.length seed) = 32 -> seed32 seed = seed.
Proof.
  intros Hb Hl. unfold seed32. rewrite to_bytes_id by assumption.
  rewrite firstn_app.
  replace (32 - List.length seed)%nat with 0%nat by lia.
  rewrite firstn_0, app_nil_r. apply firstn_all2. lia.
Qed.

Lemma tag_byte id : is_byte (tag id).
Proof. unfold tag, is_byte. Z.div_mod_to_equations. lia. Qed.

Lemma encrypt_block id seed m :
  Z.of_nat (List.length m) <= 190 ->
  do_encrypt oaep_params (mkKey false 256 id) seed m = inr (block 256 id seed m).
Proof.
  intros Hl. unfold do_encrypt, block, hLen.
  cbn [oaep_name oaep_params is_private modulus_bytes pair_id negb].
  change (String.eqb "RSA-OAEP" "RSA-OAEP") with true. cbn [negb].
  rewrite (proj2 (Z.ltb_ge _ _)) by lia. reflexivity.
Qed.

Lemma block_length id seed m :
  Z.of_nat (List.length m) <= 190 ->
  List.length (block 256 id seed m) = 256%nat.
Proof.
  intros Hl. unfold block.
  cbn [List.length]. rewrite length_app. cbn [List.length].
  rewrite length_app, seed32_length, to_bytes_length, repeat_length. lia.
Qed.

Lemma block_bytes id seed m :
  Z.of_nat (List.length m) <= 190 -> bytes (block 256 id seed m).
Proof.
  intros Hl. unfold block.
  apply Forall_cons; [apply tag_byte|].
  apply bytes_app; [apply seed32_bytes|].
  apply Forall_cons; [unfold is_byte; lia|].
  apply bytes_app; [apply to_bytes_bytes|apply repeat_bytes].
Qed.

Lemma decrypt_block id seed m :
  bytes m -> Z.of_nat (List.length m) <= 190 ->
  do_decrypt oaep_params (mkKey true 256 id) (block 256 id seed m) = inr m.
Proof.
  intros Hb Hl. unfold do_decrypt, hLen.
  cbn [oaep_name oaep_params is_private modulus_bytes pair_id negb].
  change (String.eqb "RSA-OAEP" "RSA-OAEP") with true. cbn [negb].
  rewrite block_length by assumption.
  change (Z.of_nat 256 =? 256) with true. cbn [negb].
  unfold block. rewrite Z.eqb_refl.
  rewrite app_nth2 by (rewrite seed32_length; lia).
  rewrite seed32_length. cbn [Nat.sub nth].
  rewrite (proj2 (Z.leb_le 0 _)), (proj2 (Z.leb_le _ (256 - 2 * 32 - 2)))
    by lia.
  cbn [andb].
  rewrite skipn_app, seed32_length.
  rewrite skipn_all2 by (rewrite seed32_length; lia).
  cbn [Nat.sub skipn app].
  rewrite Nat2Z.id, firstn_app, to_bytes_length, Nat.sub_diag.
  rewrite firstn_0, app_nil_r.
  rewrite firstn_all2 by (rewrite to_bytes_length; lia).
  rewrite to_bytes_id by apply to_bytes_bytes.
  rewrite to_bytes_id by assumption. reflexivity.
Qed.

Lemma block_seed id s1 s2 m m' :
  block 256 id s1 m = block 256 id s2 m' -> seed32 s1 = seed32 s2.
Proof.
  unfold block. intros E. injection E as E.
  apply app_same_length in E; [tauto|].
  rewrite !seed32_length. reflexivity.
Qed.

Lemma model_pair id :
  oaep_pair provider 256 32 (mkKey false 256 id) (mkKey true 256 id).
Proof.
  split; cbn [encrypt_op decrypt_op provider].
  - intros seed m Hb Hl. unfold oaep_capacity in Hl.
    exists (block 256 id seed m).
    split; [apply encrypt_block; lia|].
    split; [apply block_bytes; lia|].
    split; [rewrite block_length by lia; reflexivity|].
    apply decrypt_block; [assumption|lia].
  - intros seed m Hl. unfold oaep_capacity in Hl. unfold do_encrypt, hLen.
    cbn [oaep_name oaep_params is_private modulus_bytes negb].
    change (String.eqb "RSA-OAEP" "RSA-OAEP") with true. cbn [negb].
    rewrite (proj2 (Z.ltb_lt _ _)) by lia. reflexivity.
  - intros s1 s2 m c Hb1 Hl1 Hb2 Hl2 E1 E2.
    destruct (Z.le_gt_cases (Z.of_nat (List.length m)) 190) as [Hm|Hm].
    + rewrite encrypt_block in E1, E2 by assumption.
      assert (E : block 256 id s1 m = block 256 id s2 m) by congruence.
      apply block_seed in E.
      rewrite !seed32_id in E by assumption. assumption.
    + unfold do_encrypt, hLen in E1.
      cbn [oaep_name oaep_params is_private modulus_bytes negb] in E1.
      change (String.eqb "RSA-OAEP" "RSA-OAEP") with true in E1.
      cbn [negb] in E1.
      rewrite (proj2 (Z.ltb_lt _ _)) in E1 by lia. discriminate.
  - intros c e. unfold do_decrypt.
    cbn [oaep_name oaep_params is_private modulus_bytes pair_id negb].
    change (String.eqb "RSA-OAEP" "RSA-OAEP") with true. cbn [negb].
    destruct (negb _); [congruence|].
    destruct c as [|t rest]; [congruence|].
    destruct (t =? _); [|congruence].
    destruct (_ && _); congruence.
  - intros c m. unfold do_decrypt.
    cbn [oaep_name oaep_params is_private modulus_bytes pair_id negb].
    change (String.eqb "RSA-OAEP" "RSA-OAEP") with true. cbn [negb].
    destruct (negb _); [discriminate|].
    destruct c as [|t rest]; [discriminate|].
    destruct (t =? _); [|discriminate].
    destruct (_ && _); [|discriminate].
    intros E. injection E as <-. apply to_bytes_bytes.
Qed.

Lemma model_transportable id :
  bytes id ->
  transportable provider (mkKey false 256 id) (mkKey true 256 id).
Proof.
  intros Hid. split.
  - exists (48 :: 1 :: 0 :: id). unfold spki_of.
    cbn [exportKey importKey provider]. unfold do_exportKey, do_importKey.
    cbn [format_private is_private Bool.eqb modulus_bytes pair_id
         format_tag imp_name imp_hash importKey_params].
    rewrite to_bytes_id by assumption.
    split; [reflexivity|]. split; [|reflexivity].
    repeat (apply Forall_cons; [unfold is_byte; lia|]). assumption.
  - exists (49 :: 1 :: 0 :: id). unfold pkcs8_of.
    cbn [exportKey importKey provider]. unfold do_exportKey, do_importKey.
    cbn [format_private is_private Bool.eqb modulus_bytes pair_id
         format_tag imp_name imp_hash importKey_params].
    rewrite to_bytes_id by assumption.
    split; [reflexivity|]. split; [|reflexivity].
    repeat (apply Forall_cons; [unfold is_byte; lia|]). assumption.
Qed.

Lemma conforms : Conforms provider.
Proof.
  split. intros seed pk sk.
  cbn [generateKey provider]. unfold do_generateKey.
  cbn [gen_name gen_hash gen_modulusLength generateKey_params].
  change (alg_ok "RSA-OAEP" "SHA-256") with true. cbv iota.
  change (2048 / 8) with 256.
  intros E. injection E as <- <-.
  split; [apply model_pair|apply model_transportable, to_bytes_bytes].
Qed.

End ModelProviderFacts.

Section KeyTransport.

Variable P : SubtleCrypto.
Local Open Scope js_scope.

(** [exportRSAKeyPairToBase64] on keys that have encodings. *)
Lemma export_run (w : World P) pk sk spki pkcs8 :
  exportKey P Spki pk = inr spki -> bytes spki ->
  exportKey P Pkcs8 sk = inr pkcs8 -> bytes pkcs8 ->
  exportRSAKeyPairToBase64 (mkInstance pk sk) w
  = (inr (Base64.encode spki, Base64.encode pkcs8),
     called (CallExportKey Pkcs8) (called (CallExportKey Spki) w)).
Proof.
  intros E1 B1 E2 B2.
  unfold exportRSAKeyPairToBase64, bind, subtle_exportKey, bind,
    record_call, lift, ret.
  cbn [publicKey privateKey]. rewrite E1, E2.
  rewrite !fromCharCode_bytes, !Base64Facts.btoa_bytes by assumption.
  reflexivity.
Qed.

(** [importRSAKeyPairFromBase64] on two texts that each decode to an
    encoding the provider accepts: the two keys are handled one after the
    other and nothing relates them. *)
Lemma import_run (w : World P) s1 s2 b1 b2 pk sk :
  Base64.atob s1 = inr b1 -> Base64.atob s2 = inr b2 ->
  importKey P Spki (Uint8Array_from_charCodes b1) importKey_params true
            [UEncrypt] = inr pk ->
  importKey P Pkcs8 (Uint8Array_from_charCodes b2) importKey_params true
            [UDecrypt] = inr sk ->
  importRSAKeyPairFromBase64 s1 s2 w
  = (inr (mkInstance pk sk),
     called (CallImportKey Pkcs8) (called (CallImportKey Spki) w)).
Proof.
  intros A1 A2 I1 I2.
  unfold importRSAKeyPairFromBase64, bind, subtle_importKey, bind,
    record_call, lift, ret.
  rewrite A1, A2, I1, I2. reflexivity.
Qed.

(** Exporting a pair and importing the result gives the pair back. *)
Lemma export_then_import (w : World P) pk sk :
  transportable P pk sk ->
  (e <- exportRSAKeyPairToBase64 (mkInstance pk sk) ;;
   importRSAKeyPairFromBase64 (fst e) (snd e)) w
  = (inr (mkInstance pk sk),
     called (CallImportKey Pkcs8) (called (CallImportKey Spki)
       (called (CallExportKey Pkcs8) (called (CallExportKey Spki) w)))).
Proof.
  intros [[spki (E1 & B1 & I1)] [pkcs8 (E2 & B2 & I2)]].
  unfold bind at 1.
  rewrite (export_run w pk sk spki pkcs8 E1 B1 E2 B2). cbn [fst snd].
  apply (import_run _ _ _ spki pkcs8).
  - apply Base64Facts.atob_encode; assumption.
  - apply Base64Facts.atob_encode; assumption.
  - rewrite Uint8Array_from_charCodes_bytes; assumption.
  - rewrite Uint8Array_from_charCodes_bytes; assumption.
Qed.

Lemma encrypt_twice_run (w : World P) this pk sk m :
  holds w this pk sk -> oaep_pair P 256 32 pk sk -> js_string m ->
  Z.of_nat (List.length (TextEncoder_encode m)) <= 190 ->
  bytes (entropy w (draws w)) ->
  Z.of_nat (List.length (entropy w (draws w))) = 32 ->
  bytes (entropy w (S (draws w))) ->
  Z.of_nat (List.length (entropy w (S (draws w)))) = 32 ->
  entropy w (draws w) <> entropy w (S (draws w)) ->
  exists c1 c2,
    c1 <> c2 /\
    fst (encrypt_twice this m w)
    = inr (c1, c2, TextDecoder_decode (TextEncoder_encode m),
           TextDecoder_decode (TextEncoder_encode m)).
Proof.
  intros Hh Hp Hm Hlen Hb1 Hl1 Hb2 Hl2 Hne.
  destruct (decrypt_encrypt P w this pk sk m Hh Hp Hm Hlen)
    as (blk1 & [Bb1 _] & Eo1 & E1 & D1).
  set (w1 := drew_and_called CallEncrypt w) in *.
  assert (Hh1 : holds w1 this pk sk) by exact Hh.
  destruct (decrypt_encrypt P w1 this pk sk m Hh1 Hp Hm Hlen)
    as (blk2 & [Bb2 _] & Eo2 & E2 & D2).
  set (w2 := drew_and_called CallEncrypt w1) in *.
  assert (Hh2 : holds w2 this pk sk) by exact Hh.
  exists (Base64.encode blk1), (Base64.encode blk2). split.
  - intros Eq. apply Base64Facts.encode_injective in Eq; try assumption.
    subst blk2. apply Hne.
    exact (oaep_seed _ _ _ _ _ Hp _ _ _ _ Hb1 Hl1 Hb2 Hl2 Eo1 Eo2).
  - unfold encrypt_twice. unfold bind at 1. rewrite E1.
    unfold bind at 1. rewrite E2.
    unfold bind at 1. rewrite (D1 w2 Hh2).
    unfold bind at 1.
    rewrite (D2 (called CallDecrypt w2) Hh2). reflexivity.
Qed.

End KeyTransport.

(** ** Objects are only ever added *)

Section Frame.

Variable P : SubtleCrypto.

Lemma extends_refl (w : World P) : extends w w.
Proof. exists []. rewrite app_nil_r. reflexivity. Qed.

Lemma extends_trans (w1 w2 w3 : World P) : extends w1 w2 -> extends w2 w3 -> extends w1 w3.
Proof.
  intros [a Ha] [b Hb]. exists (a ++ b). rewrite Hb, Ha, app_assoc. reflexivity.
Qed.

Lemma frames_ret {A} (a : A) : frames (ret (P:=P) a).
Proof. intros w. apply extends_refl. Qed.

Lemma frames_lift {A} (r : Exn + A) : frames (lift (P:=P) r).
Proof. intros w. apply extends_refl. Qed.

Lemma frames_record_call c : frames (record_call (P:=P) c).
Proof. intros w. exists []. cbn. rewrite app_nil_r. reflexivity. Qed.

Lemma frames_draw : frames (draw (P:=P)).
Proof. intros w. exists []. cbn. rewrite app_nil_r. reflexivity. Qed.

Lemma frames_deref this : frames (deref (P:=P) this).
Proof.
  intros w. unfold deref. destruct (nth_error (heap w) this);
    apply extends_refl.
Qed.

Lemma frames_alloc o : frames (alloc (P:=P) o).
Proof. intros w. exists [o]. reflexivity. Qed.

Lemma frames_bind {A B} (m : Js P A) (f : A -> Js P B) :
  frames m -> (forall a, frames (f a)) -> frames (bind m f).
Proof.
  intros Hm Hf w. unfold bind. specialize (Hm w).
  destruct (m w) as [[e|a] w'] eqn:E; cbn [snd] in *.
  - assumption.
  - apply extends_trans with w'; [assumption|apply Hf].
Qed.

Ltac frame :=
  repeat first
    [ apply frames_bind; [|intros ?]
    | apply frames_ret | apply frames_lift | apply frames_record_call
    | apply frames_draw | apply frames_deref | apply frames_alloc ].

Lemma frames_constructor pk sk : frames (constructor (P:=P) pk sk).
Proof. unfold constructor. frame. Qed.

Lemma frames_generateKeyPair : frames (generateKeyPair (P:=P)).
Proof. unfold generateKeyPair, subtle_generateKey. frame. Qed.

Lemma frames_New : frames (New (P:=P)).
Proof.
  unfold New. apply frames_bind; [apply frames_generateKeyPair|].
  intros kp. apply frames_constructor.
Qed.

Lemma frames_export kp : frames (exportRSAKeyPairToBase64 (P:=P) kp).
Proof. unfold exportRSAKeyPairToBase64, subtle_exportKey. frame. Qed.

Lemma frames_import s1 s2 : frames (importRSAKeyPairFromBase64 (P:=P) s1 s2).
Proof. unfold importRSAKeyPairFromBase64, subtle_importKey. frame. Qed.

Lemma frames_encrypt this data : frames (encrypt (P:=P) this data).
Proof. unfold encrypt, subtle_encrypt. frame. Qed.

Lemma frames_decrypt this data : frames (decrypt (P:=P) this data).
Proof. unfold decrypt, subtle_decrypt. frame. Qed.

Lemma extends_lookup (w w' : World P) this o :
  extends w w' ->
  nth_error (heap w) this = Some o -> nth_error (heap w') this = Some o.
Proof.
  intros [added ->] H. rewrite nth_error_app1; [assumption|].
  apply nth_error_Some. congruence.
Qed.

End Frame.

(* ===================================================================== *)
(** * The claims *)
(* ===================================================================== *)

Local Open Scope js_scope.

Lemma model_New :
  New ModelProvider.world0 = (inr 0%nat, model_world).
Proof. reflexivity. Qed.

Lemma model_holds : holds model_world 0 model_pk model_sk.
Proof. reflexivity. Qed.

Lemma model_oaep_pair : oaep_pair ModelProvider.provider 256 32 model_pk model_sk.
Proof. apply ModelProviderFacts.model_pair. Qed.

(** An instance created by [New] holds a 2048-bit RSA-OAEP/SHA-256 pair that
    can be exported and imported: the instances the statements below are
    about. *)
Lemma New_instance P (w w' : World P) this :
  Conforms P -> New w = (inr this, w') ->
  exists pk sk,
    holds w' this pk sk /\ oaep_pair P 256 32 pk sk /\ transportable P pk sk.
Proof.
  intros HP HN.
  destruct (generateKey P generateKey_params true [UEncrypt; UDecrypt]
              (entropy w (draws w))) as [e|[pk sk]] eqn:Hg.
  - exfalso. revert HN.
    unfold New, generateKeyPair, subtle_generateKey, bind, record_call,
      draw, lift.
    cbn [entropy draws trace heap]. rewrite Hg. discriminate.
  - destruct (New_run P w pk sk Hg) as (w1 & E & Hh & _).
    rewrite E in HN. injection HN as <- <-.
    exists pk, sk. split; [assumption|].
    exact (generateKey_pair P HP _ pk sk Hg).
Qed.

(** ** Round trip *)

(** Text that is well formed and does not begin with U+FEFF comes back
    exactly, on an instance holding a 2048-bit RSA-OAEP/SHA-256 pair. *)
Lemma encrypt_decrypt_roundtrip P (w : World P) this pk sk m :
  holds w this pk sk -> oaep_pair P 256 32 pk sk ->
  js_string m -> UTF16.well_formed m = true -> no_leading_bom m = true ->
  Z.of_nat (List.length (TextEncoder_encode m)) <= 190 ->
  fst ((c <- encrypt this m ;; decrypt this c) w) = inr m.
Proof.
  intros Hh Hp Hm Hw Hb Hl.
  rewrite (encrypt_then_decrypt P w this pk sk m Hh Hp Hm Hl). cbn [fst].
  rewrite text_roundtrip by assumption. reflexivity.
Qed.

(** A leading U+FEFF is dropped: the text [U+FEFF m] comes back as [m]. *)
Lemma encrypt_decrypt_leading_bom P (w : World P) this pk sk m :
  holds w this pk sk -> oaep_pair P 256 32 pk sk ->
  js_string m -> UTF16.well_formed m = true ->
  Z.of_nat (List.length (TextEncoder_encode (BOM :: m))) <= 190 ->
  fst ((c <- encrypt this (BOM :: m) ;; decrypt this c) w) = inr m.
Proof.
  intros Hh Hp Hm Hw Hl.
  assert (Hm' : js_string (BOM :: m)).
  { apply Forall_cons; [unfold is_code_unit, BOM; lia|assumption]. }
  rewrite (encrypt_then_decrypt P w this pk sk _ Hh Hp Hm' Hl). cbn [fst].
  rewrite TextDecoder_TextEncoder by assumption.
  change (UTF16.to_scalar_values (BOM :: m))
    with (BOM :: UTF16.to_scalar_values m).
  change (strip_bom (BOM :: UTF16.to_scalar_values m))
    with (UTF16.to_scalar_values m).
  rewrite UTF16Facts.of_to_scalar_values by assumption. reflexivity.
Qed.

(** C1.  The claim: for every text [m] of at most 190 UTF-8 bytes,
    [decrypt(encrypt(m))] on one instance is exactly [m].  On the code this
    fails for a text that begins with U+FEFF: the text U+FEFF "abc" is well
    formed, has 6 UTF-8 bytes, is encrypted, and is decrypted to "abc",
    because [new TextDecoder()] drops a leading byte order mark.  This
    theorem runs [encrypt] then [decrypt] at that input, on any instance that
    holds a 2048-bit RSA-OAEP/SHA-256 pair. *)
Theorem C1_roundtrip_loses_leading_bom P (w : World P) this pk sk :
  holds w this pk sk -> oaep_pair P 256 32 pk sk ->
  UTF16.well_formed (BOM :: lit "abc") = true /\
  Z.of_nat (List.length (TextEncoder_encode (BOM :: lit "abc"))) = 6 /\
  fst ((c <- encrypt this (BOM :: lit "abc") ;; decrypt this c) w)
    = inr (lit "abc") /\
  lit "abc" <> BOM :: lit "abc".
Proof.
  intros Hh Hp.
  split; [reflexivity|]. split; [reflexivity|]. split; [|discriminate].
  apply (encrypt_decrypt_leading_bom P w this pk sk (lit "abc") Hh Hp).
  - apply js_string_lit.
  - reflexivity.
  - vm_compute. discriminate.
Qed.

Lemma C1_roundtrip_loses_leading_bom_witness :
  (holds model_world 0 model_pk model_sk /\
   oaep_pair ModelProvider.provider 256 32 model_pk model_sk) /\
  fst ((c <- encrypt 0 (BOM :: lit "abc") ;; decrypt 0 c) model_world)
    = inr (lit "abc").
Proof.
  split; [split; [exact model_holds|exact model_oaep_pair]|].
  exact (proj1 (proj2 (proj2
    (C1_roundtrip_loses_leading_bom ModelProvider.provider model_world 0
       model_pk model_sk model_holds model_oaep_pair)))).
Defined.

(** ** Export and import *)

Lemma holds_alloc P (w : World P) pk sk :
  holds (snd (constructor pk sk w)) (List.length (heap w)) pk sk.
Proof.
  unfold holds, constructor, alloc. cbn [snd heap].
  rewrite nth_error_app2 by lia. rewrite Nat.sub_diag. reflexivity.
Qed.

(** The imported keys are the generated keys, and the new object treats a
    text the way the two codecs do. *)
Lemma export_import_scenario_run P (w : World P) pk sk m :
  Conforms P ->
  generateKey P generateKey_params true [UEncrypt; UDecrypt]
              (entropy w (draws w)) = inr (pk, sk) ->
  js_string m -> Z.of_nat (List.length (TextEncoder_encode m)) <= 190 ->
  fst (export_import_scenario m w)
  = inr (mkInstance pk sk, TextDecoder_decode (TextEncoder_encode m)).
Proof.
  intros HP Hg Hm Hl.
  destruct (generateKey_pair P HP _ pk sk Hg) as [Hp Ht].
  destruct Ht as [[spki (E1 & B1 & I1)] [pkcs8 (E2 & B2 & I2)]].
  unfold export_import_scenario.
  unfold bind at 1. rewrite (generateKeyPair_run P w pk sk Hg).
  unfold bind at 1. rewrite (export_run P _ pk sk spki pkcs8 E1 B1 E2 B2).
  cbn [fst snd].
  unfold bind at 1.
  rewrite (import_run P _ _ _ spki pkcs8 pk sk
             (Base64Facts.atob_encode spki B1)
             (Base64Facts.atob_encode pkcs8 B2));
    [ | rewrite Uint8Array_from_charCodes_bytes; assumption
      | rewrite Uint8Array_from_charCodes_bytes; assumption ].
  cbn [publicKey privateKey].
  match goal with
  | |- fst (bind (constructor pk sk) _ ?w0) = _ => set (w3 := w0)
  end.
  pose proof (holds_alloc P w3 pk sk) as Hh.
  unfold bind at 1. unfold constructor at 1, alloc at 1.
  unfold constructor, alloc in Hh. cbn [snd] in Hh.
  set (w4 := mkWorld (entropy w3) (draws w3) (trace w3)
                     (heap w3 ++ [mkInstance pk sk])) in *.
  cbv beta iota.
  destruct (decrypt_encrypt P w4 _ pk sk m Hh Hp Hm Hl)
    as (blk & _ & _ & Ee & Ed).
  unfold bind at 1. rewrite Ee.
  unfold bind at 1.
  rewrite (Ed (drew_and_called CallEncrypt w4) Hh). reflexivity.
Qed.

(** C2.  The claim: a generated pair that is exported, imported and wrapped
    in a new instance gives an instance whose encrypt-then-decrypt reproduces
    any plaintext within the size limit; key serialization is lossless.  On
    the code the imported keys are the generated keys, so serialization is
    lossless, but the new instance loses a leading U+FEFF exactly as the
    original does: the text U+FEFF "abc" comes back as "abc" (the defect of
    C1).  This theorem runs the whole scenario at that input, for every
    conforming provider. *)
Theorem C2_export_import_then_leading_bom P (w : World P) pk sk :
  Conforms P ->
  generateKey P generateKey_params true [UEncrypt; UDecrypt]
              (entropy w (draws w)) = inr (pk, sk) ->
  fst (export_import_scenario (BOM :: lit "abc") w)
    = inr (mkInstance pk sk, lit "abc") /\
  lit "abc" <> BOM :: lit "abc".
Proof.
  intros HP Hg. split; [|discriminate].
  rewrite (export_import_scenario_run P w pk sk (BOM :: lit "abc") HP Hg).
  - reflexivity.
  - apply Forall_cons; [unfold is_code_unit, BOM; lia|apply js_string_lit].
  - vm_compute. discriminate.
Qed.

Lemma C2_export_import_then_leading_bom_witness :
  (Conforms ModelProvider.provider /\
   generateKey ModelProvider.provider generateKey_params true
     [UEncrypt; UDecrypt]
     (entropy ModelProvider.world0 (draws ModelProvider.world0))
   = inr (model_pk, model_sk)) /\
  fst (export_import_scenario (BOM :: lit "abc") ModelProvider.world0)
    = inr (mkInstance (P:=ModelProvider.provider) model_pk model_sk, lit "abc").
Proof.
  split; [split; [exact ModelProviderFacts.conforms|reflexivity]|].
  exact (proj1
    (C2_export_import_then_leading_bom ModelProvider.provider
       ModelProvider.world0 model_pk model_sk ModelProviderFacts.conforms
       eq_refl)).
Defined.

(** Text that is well formed and does not begin with U+FEFF comes back
    exactly from the instance built on the imported keys. *)
Lemma export_import_roundtrip P (w : World P) pk sk m :
  Conforms P ->
  generateKey P generateKey_params true [UEncrypt; UDecrypt]
              (entropy w (draws w)) = inr (pk, sk) ->
  js_string m -> UTF16.well_formed m = true -> no_leading_bom m = true ->
  Z.of_nat (List.length (TextEncoder_encode m)) <= 190 ->
  fst (export_import_scenario m w) = inr (mkInstance pk sk, m).
Proof.
  intros HP Hg Hm Hw Hb Hl.
  rewrite (export_import_scenario_run P w pk sk m HP Hg Hm Hl).
  rewrite text_roundtrip by assumption. reflexivity.
Qed.

(** ** Capacity *)

Lemma js_string_repeat c n : is_code_unit c -> js_string (repeat c n).
Proof.
  intros Hc. apply Forall_forall. intros x Hx.
  apply repeat_spec in Hx. subst. assumption.
Qed.

(** C3.  On an instance holding a 2048-bit RSA-OAEP/SHA-256 pair, [encrypt]
    succeeds on every plaintext whose UTF-8 encoding has at most 190 bytes
    (so on every one of exactly 190 bytes), and on every plaintext of 191
    bytes or more it fails with the provider's OperationError (the
    specification's PlaintextTooLargeError), whatever the state of the host
    and of its random source. *)
Theorem C3_capacity_boundary P (w : World P) this pk sk m :
  holds w this pk sk -> oaep_pair P 256 32 pk sk -> js_string m ->
  (Z.of_nat (List.length (TextEncoder_encode m)) <= 190 ->
   exists c, encrypt this m w = (inr c, drew_and_called CallEncrypt w)) /\
  (191 <= Z.of_nat (List.length (TextEncoder_encode m)) ->
   encrypt this m w = (inl OperationError, drew_and_called CallEncrypt w)).
Proof.
  intros Hh Hp Hm. split; intros Hl.
  - destruct (decrypt_encrypt P w this pk sk m Hh Hp Hm Hl)
      as (blk & _ & _ & He & _).
    exists (Base64.encode blk). exact He.
  - rewrite (encrypt_run P w this pk sk m Hh).
    rewrite (oaep_too_long _ _ _ _ _ Hp) by (unfold oaep_capacity; lia).
    reflexivity.
Qed.

Lemma C3_capacity_boundary_witness :
  (holds model_world 0 model_pk model_sk /\
   oaep_pair ModelProvider.provider 256 32 model_pk model_sk /\
   js_string (repeat 97 190) /\ js_string (repeat 97 191) /\
   Z.of_nat (List.length (TextEncoder_encode (repeat 97 190))) = 190 /\
   Z.of_nat (List.length (TextEncoder_encode (repeat 97 191))) = 191) /\
  (exists c, encrypt 0 (repeat 97 190) model_world
             = (inr c, drew_and_called CallEncrypt model_world)) /\
  encrypt 0 (repeat 97 191) model_world
  = (inl OperationError, drew_and_called CallEncrypt model_world).
Proof.
  assert (H97 : is_code_unit 97) by (unfold is_code_unit; lia).
  split; [|split].
  - repeat split; try exact model_holds; try apply model_oaep_pair;
      try (apply js_string_repeat; exact H97); try (vm_compute; reflexivity).
  - apply (proj1 (C3_capacity_boundary ModelProvider.provider model_world 0
                    model_pk model_sk (repeat 97 190) model_holds
                    model_oaep_pair (js_string_repeat 97 190 H97))).
    vm_compute. discriminate.
  - apply (proj2 (C3_capacity_boundary ModelProvider.provider model_world 0
                    model_pk model_sk (repeat 97 191) model_holds
                    model_oaep_pair (js_string_repeat 97 191 H97))).
    vm_compute. discriminate.
Defined.

(** ** Two encryptions of one text *)

(** With two different OAEP seeds, two encryptions of one text give two
    different ciphertexts, and both are decrypted to the text, when the text
    is well formed and does not begin with U+FEFF. *)
Lemma encrypt_nondeterministic P (w : World P) this pk sk m :
  holds w this pk sk -> oaep_pair P 256 32 pk sk ->
  js_string m -> UTF16.well_formed m = true -> no_leading_bom m = true ->
  Z.of_nat (List.length (TextEncoder_encode m)) <= 190 ->
  bytes (entropy w (draws w)) ->
  Z.of_nat (List.length (entropy w (draws w))) = 32 ->
  bytes (entropy w (S (draws w))) ->
  Z.of_nat (List.length (entropy w (S (draws w)))) = 32 ->
  entropy w (draws w) <> entropy w (S (draws w)) ->
  exists c1 c2,
    c1 <> c2 /\ fst (encrypt_twice this m w) = inr (c1, c2, m, m).
Proof.
  intros Hh Hp Hm Hw Hb Hl B1 L1 B2 L2 Hne.
  destruct (encrypt_twice_run P w this pk sk m Hh Hp Hm Hl B1 L1 B2 L2 Hne)
    as (c1 & c2 & Hc & E).
  exists c1, c2. split; [assumption|].
  rewrite E, text_roundtrip by assumption. reflexivity.
Qed.

(** C4.  The claim: two separate calls of [encrypt] on one plaintext give
    different ciphertexts, and both decrypt to the original plaintext.  With
    the random source explicit, the two calls draw two seeds; when these
    differ the ciphertexts differ.  But the second half fails where C1
    fails: for the text U+FEFF "abc" both ciphertexts are decrypted to "abc"
    (the defect of C1).  This theorem runs the two encryptions and the two
    decryptions at that input. *)
Theorem C4_two_encryptions_leading_bom P (w : World P) this pk sk :
  holds w this pk sk -> oaep_pair P 256 32 pk sk ->
  bytes (entropy w (draws w)) ->
  Z.of_nat (List.length (entropy w (draws w))) = 32 ->
  bytes (entropy w (S (draws w))) ->
  Z.of_nat (List.length (entropy w (S (draws w)))) = 32 ->
  entropy w (draws w) <> entropy w (S (draws w)) ->
  exists c1 c2,
    c1 <> c2 /\
    fst (encrypt_twice this (BOM :: lit "abc") w)
      = inr (c1, c2, lit "abc", lit "abc") /\
    lit "abc" <> BOM :: lit "abc".
Proof.
  intros Hh Hp B1 L1 B2 L2 Hne.
  assert (Hm : js_string (BOM :: lit "abc")).
  { apply Forall_cons; [unfold is_code_unit, BOM; lia|apply js_string_lit]. }
  assert (Hl : Z.of_nat (List.length (TextEncoder_encode (BOM :: lit "abc")))
               <= 190) by (vm_compute; discriminate).
  destruct (encrypt_twice_run P w this pk sk _ Hh Hp Hm Hl B1 L1 B2 L2 Hne)
    as (c1 & c2 & Hc & E).
  exists c1, c2. split; [assumption|]. split; [|discriminate].
  rewrite E. reflexivity.
Qed.

Lemma bytes_repeat b n : is_byte b -> bytes (repeat b n).
Proof.
  intros Hb. apply Forall_forall. intros x Hx.
  apply repeat_spec in Hx. subst. assumption.
Qed.

Lemma C4_two_encryptions_leading_bom_witness :
  (holds model_world 0 model_pk model_sk /\
   oaep_pair ModelProvider.provider 256 32 model_pk model_sk /\
   entropy model_world (draws model_world)
     <> entropy model_world (S (draws model_world))) /\
  exists c1 c2,
    c1 <> c2 /\
    fst (encrypt_twice 0 (BOM :: lit "abc") model_world)
      = inr (c1, c2, lit "abc", lit "abc") /\
    lit "abc" <> BOM :: lit "abc".
Proof.
  assert (Hne : entropy model_world (draws model_world)
                <> entropy model_world (S (draws model_world)))
    by (vm_compute; discriminate).
  split; [split; [exact model_holds|split; [exact model_oaep_pair|exact Hne]]|].
  apply (C4_two_encryptions_leading_bom ModelProvider.provider model_world 0
           model_pk model_sk model_holds model_oaep_pair).
  - apply (bytes_repeat 1 32). unfold is_byte. lia.
  - reflexivity.
  - apply (bytes_repeat 2 32). unfold is_byte. lia.
  - reflexivity.
  - exact Hne.
Defined.

(** ** Decryption failures *)

(** Where the UTF-8 decoder meets an error it puts U+FFFD. *)
Lemma run_invalid st bs :
  UTF8.valid_from st bs = false -> In REPLACEMENT (UTF8.run st bs).
Proof.
  revert st. induction bs as [|b rest IH]; intros st Hv.
  - cbn [UTF8.valid_from] in Hv. cbn [UTF8.run]. rewrite Hv. left; reflexivity.
  - cbn [UTF8.valid_from UTF8.run] in *.
    destruct (UTF8.handler st b) as [st'|cp st'|st'|st'].
    + apply IH; assumption.
    + right. apply IH; assumption.
    + left; reflexivity.
    + left; reflexivity.
Qed.

Lemma TextDecoder_decode_invalid plain :
  UTF8.valid plain = false -> In REPLACEMENT (TextDecoder_decode plain).
Proof.
  intros Hv. apply run_invalid in Hv. fold (UTF8.decode plain) in Hv.
  unfold TextDecoder_decode, UTF16.of_code_points.
  apply in_flat_map. exists REPLACEMENT. split; [|left; reflexivity].
  destruct (UTF8.decode plain) as [|c rest]; [contradiction|].
  cbn [strip_bom]. destruct (c =? BOM) eqn:E; [|assumption].
  apply Z.eqb_eq in E. subst c.
  destruct Hv as [Hv|Hv]; [discriminate|assumption].
Qed.

(** Whoever holds the public key can make a block whose plaintext is not
    UTF-8.  For every pair, the block of the single byte 0xFF is decrypted
    by the provider, and [decrypt] returns the string U+FFFD. *)
Lemma decrypt_not_utf8 P (w : World P) this pk sk seed :
  holds w this pk sk -> oaep_pair P 256 32 pk sk ->
  exists block,
    encrypt_op P oaep_params pk seed [255] = inr block /\
    decrypt_op P oaep_params sk block = inr [255] /\
    UTF8.valid [255] = false /\
    decrypt this (Base64.encode block) w
      = (inr [0xFFFD], called CallDecrypt w).
Proof.
  intros Hh Hp.
  assert (Hb : bytes [255]).
  { apply Forall_cons; [unfold is_byte; lia|apply Forall_nil]. }
  destruct (oaep_correct _ _ _ _ _ Hp seed [255] Hb ltac:(unfold oaep_capacity; cbn; lia))
    as (block & He & Bb & _ & Hd).
  exists block. split; [assumption|]. split; [assumption|].
  split; [reflexivity|].
  rewrite (decrypt_run P w this pk sk _ block Hh
             (Base64Facts.atob_encode block Bb)).
  rewrite Uint8Array_from_charCodes_bytes, Hd by assumption. reflexivity.
Qed.

(** C5, as amended.  [decrypt] fails, with the provider's OperationError,
    exactly when the provider's OAEP decryption fails.  When the provider
    returns bytes, [decrypt] never fails, whatever the bytes: it returns
    their decoding, in which every ill-formed sequence has become U+FFFD; so
    bytes that are not valid UTF-8 give a string that contains U+FFFD, not
    an error. *)
Theorem C5_decrypt_outcomes P (w : World P) this pk sk data block :
  holds w this pk sk -> oaep_pair P 256 32 pk sk ->
  Base64.atob data = inr block ->
  (forall e,
     decrypt_op P oaep_params sk (Uint8Array_from_charCodes block) = inl e ->
     decrypt this data w = (inl OperationError, called CallDecrypt w)) /\
  (forall plain,
     decrypt_op P oaep_params sk (Uint8Array_from_charCodes block) = inr plain ->
     decrypt this data w
       = (inr (TextDecoder_decode plain), called CallDecrypt w) /\
     (UTF8.valid plain = false -> In REPLACEMENT (TextDecoder_decode plain))).
Proof.
  intros Hh Hp Ha. split.
  - intros e He. rewrite (decrypt_run P w this pk sk data block Hh Ha), He.
    rewrite (oaep_reject _ _ _ _ _ Hp _ _ He). reflexivity.
  - intros plain Hd. split.
    + rewrite (decrypt_run P w this pk sk data block Hh Ha), Hd. reflexivity.
    + apply TextDecoder_decode_invalid.
Qed.

Lemma model_block_bytes plain :
  Z.of_nat (List.length plain) <= 190 -> bytes (model_block plain).
Proof.
  intros Hl. unfold model_block, model_pk.
  rewrite ModelProviderFacts.encrypt_block by assumption.
  apply ModelProviderFacts.block_bytes; assumption.
Qed.

Lemma C5_decrypt_outcomes_witness :
  (holds model_world 0 model_pk model_sk /\
   oaep_pair ModelProvider.provider 256 32 model_pk model_sk /\
   Base64.atob (model_ciphertext [255]) = inr (model_block [255])) /\
  decrypt 0 (model_ciphertext [255]) model_world
    = (inr (TextDecoder_decode [255]), called CallDecrypt model_world) /\
  decrypt 0 (lit "TWFu") model_world
    = (inl OperationError, called CallDecrypt model_world).
Proof.
  assert (Ha : Base64.atob (model_ciphertext [255]) = inr (model_block [255])).
  { apply Base64Facts.atob_encode. apply model_block_bytes.
    vm_compute. discriminate. }
  split; [split; [exact model_holds|split; [exact model_oaep_pair|exact Ha]]|].
  split.
  - apply (proj2 (C5_decrypt_outcomes ModelProvider.provider model_world 0
                    model_pk model_sk _ _ model_holds model_oaep_pair Ha)).
    vm_compute. reflexivity.
  - apply (proj1 (C5_decrypt_outcomes ModelProvider.provider model_world 0
                    model_pk model_sk (lit "TWFu") (lit "Man") model_holds
                    model_oaep_pair eq_refl) OperationError).
    vm_compute. reflexivity.
Defined.

(** C5, the claim as stated fails: the block [model_block [255]] is decrypted
    by the provider to the single byte 0xFF, which is not valid UTF-8, and
    [decrypt] returns the string U+FFFD instead of failing. *)
Lemma C5_counterexample :
  decrypt_op ModelProvider.provider oaep_params model_sk (model_block [255])
    = inr [255] /\
  UTF8.valid [255] = false /\
  decrypt 0 (model_ciphertext [255]) model_world
    = (inr [0xFFFD], called CallDecrypt model_world).
Proof.
  assert (Hb : bytes (model_block [255])).
  { apply model_block_bytes. vm_compute. discriminate. }
  assert (Hd : decrypt_op ModelProvider.provider oaep_params model_sk
                 (model_block [255]) = inr [255])
    by (vm_compute; reflexivity).
  split; [exact Hd|]. split; [reflexivity|].
  unfold model_ciphertext.
  rewrite (decrypt_run ModelProvider.provider model_world 0 model_pk model_sk
             _ (model_block [255]) model_holds
             (Base64Facts.atob_encode _ Hb)).
  rewrite Uint8Array_from_charCodes_bytes by exact Hb.
  rewrite Hd. reflexivity.
Qed.

(** ** Input that is not Base64 *)

Lemma list_ind4 {A} (P : list A -> Prop) :
  P [] -> (forall a, P [a]) -> (forall a b, P [a; b]) ->
  (forall a b c, P [a; b; c]) ->
  (forall a b c d rest, P rest -> P (a :: b :: c :: d :: rest)) ->
  forall l, P l.
Proof.
  intros H0 H1 H2 H3 H4.
  fix IH 1.
  intros [|a [|b [|c [|d rest]]]];
    [exact H0 | apply H1 | apply H2 | apply H3 | apply H4; apply IH].
Qed.

Lemma in_alphabet_facts c :
  in_alphabet c = true ->
  c <> Base64.pad /\ Base64.is_ascii_whitespace c = false /\
  exists v, Base64.sextet_of_char c = Some v.
Proof.
  unfold in_alphabet, Base64.sextet_of_char, Base64.is_ascii_whitespace,
    Base64.pad.
  destruct ((65 <=? c) && (c <=? 90)) eqn:E1.
  { unbool. intros _. decide_tests. split; [lia|]. split; [reflexivity|].
    eexists; reflexivity. }
  destruct ((97 <=? c) && (c <=? 122)) eqn:E2.
  { unbool. intros _. decide_tests. split; [lia|]. split; [reflexivity|].
    eexists; reflexivity. }
  destruct ((48 <=? c) && (c <=? 57)) eqn:E3.
  { unbool. intros _. decide_tests. split; [lia|]. split; [reflexivity|].
    eexists; reflexivity. }
  destruct (c =? 43) eqn:E4.
  { unbool. subst. intros _. split; [lia|]. split; [reflexivity|].
    eexists; reflexivity. }
  destruct (c =? 47) eqn:E5.
  { unbool. subst. intros _. split; [lia|]. split; [reflexivity|].
    eexists; reflexivity. }
  discriminate.
Qed.

(** What [atob] makes of Base64 in the sense of RFC 4648: no character is
    removed, the length is a multiple of four, and what is left after the
    padding is removed is in the alphabet and not of length 1 modulo 4. *)
Lemma rfc4648_valid_accepted_parts s :
  rfc4648_valid s = true ->
  Base64.remove_whitespace s = s /\
  Z.of_nat (List.length s) mod 4 = 0 /\
  (exists vs, Base64.sextets (Base64.drop_trailing_pad s) = Some vs) /\
  Z.of_nat (List.length (Base64.drop_trailing_pad s)) mod 4 <> 1.
Proof.
  unfold Base64.remove_whitespace.
  induction s as [|a|a b|a b c|a b c d rest IH] using list_ind4;
    try discriminate.
  { intros _. repeat split; [exists []; reflexivity|cbv; discriminate]. }
  destruct rest as [|e rest'].
  - clear IH. cbn [rfc4648_valid]. intros Hv.
    apply andb_true_iff in Hv. destruct Hv as [Hab Hcd].
    apply andb_true_iff in Hab. destruct Hab as [Ha Hb].
    destruct (in_alphabet_facts a Ha) as (Pa & Wa & va & Sa).
    destruct (in_alphabet_facts b Hb) as (Pb & Wb & vb & Sb).
    cbn [filter]. rewrite Wa, Wb. cbn [negb].
    rewrite !Base64Facts.drop_trailing_pad_cons by assumption.
    cbn [Base64.sextets]. rewrite Sa, Sb.
    apply orb_true_iff in Hcd. destruct Hcd as [Hcd|Hcd].
    + apply andb_true_iff in Hcd. destruct Hcd as [Hc Hd].
      destruct (in_alphabet_facts c Hc) as (Pc & Wc & vc & Sc).
      rewrite Wc. cbn [negb].
      rewrite !Base64Facts.drop_trailing_pad_cons by assumption.
      cbn [Base64.sextets]. rewrite Sc.
      apply orb_true_iff in Hd. destruct Hd as [Hd|Hd].
      * destruct (in_alphabet_facts d Hd) as (Pd & Wd & vd & Sd).
        rewrite Wd. cbn [negb].
        rewrite !Base64Facts.drop_trailing_pad_cons by assumption.
        cbn [Base64.sextets Base64.drop_trailing_pad]. rewrite Sd.
        repeat split; [eexists; reflexivity|cbv; discriminate].
      * apply Z.eqb_eq in Hd. subst d.
        cbn [Base64.drop_trailing_pad]. rewrite Z.eqb_refl.
        cbn [Base64.sextets].
        repeat split; [eexists; reflexivity|cbv; discriminate].
    + apply andb_true_iff in Hcd. destruct Hcd as [Hc Hd].
      apply Z.eqb_eq in Hc, Hd. subst c d.
      cbn [Base64.drop_trailing_pad]. rewrite Z.eqb_refl.
      cbn [andb Base64.sextets].
      repeat split; [eexists; reflexivity|cbv; discriminate].
  - change (rfc4648_valid (a :: b :: c :: d :: e :: rest'))
      with (in_alphabet a && in_alphabet b && in_alphabet c && in_alphabet d
            && rfc4648_valid (e :: rest')).
    intros Hv.
    apply andb_true_iff in Hv. destruct Hv as [Hv Hr].
    apply andb_true_iff in Hv. destruct Hv as [Hv Hd].
    apply andb_true_iff in Hv. destruct Hv as [Hv Hc].
    apply andb_true_iff in Hv. destruct Hv as [Ha Hb].
    destruct (in_alphabet_facts a Ha) as (Pa & Wa & va & Sa).
    destruct (in_alphabet_facts b Hb) as (Pb & Wb & vb & Sb).
    destruct (in_alphabet_facts c Hc) as (Pc & Wc & vc & Sc).
    destruct (in_alphabet_facts d Hd) as (Pd & Wd & vd & Sd).
    destruct (IH Hr) as (IHw & IHl & [vs IHs] & IHm).
    set (r := e :: rest') in *.
    cbn [filter]. rewrite Wa, Wb, Wc, Wd. cbn [negb]. rewrite IHw.
    rewrite !Base64Facts.drop_trailing_pad_cons by assumption.
    cbn [Base64.sextets]. rewrite Sa, Sb, Sc, Sd, IHs.
    cbn [List.length]. rewrite !Base64Facts.mod4_step.
    repeat split; [assumption|eexists; reflexivity|assumption].
Qed.

Lemma rfc4648_valid_accepted s :
  rfc4648_valid s = true -> Base64.forgiving_decode s <> None.
Proof.
  intros Hv.
  destruct (rfc4648_valid_accepted_parts s Hv) as (Hw & Hl & [vs Hs] & Hm).
  unfold Base64.forgiving_decode, Base64.strip_padding.
  rewrite Hw, Hl. cbn [Z.eqb].
  rewrite (proj2 (Z.eqb_neq _ 1) Hm), Hs. discriminate.
Qed.

Lemma unpadded_not_rfc4648 bs :
  bytes bs -> Z.of_nat (List.length bs) mod 3 <> 0 ->
  rfc4648_valid (unpadded (Base64.encode bs)) = false.
Proof.
  intros Hb Hl.
  destruct (rfc4648_valid (unpadded (Base64.encode bs))) eqn:Hv;
    [|reflexivity].
  exfalso. apply (Base64Facts.unpadded_length bs Hb Hl).
  exact (proj1 (proj2 (rfc4648_valid_accepted_parts _ Hv))).
Qed.

(** A ciphertext with its padding left out is not Base64 in the sense of
    RFC 4648, and [decrypt] treats it exactly like the padded one. *)
Lemma decrypt_unpadded P (w : World P) this pk sk m :
  holds w this pk sk -> oaep_pair P 256 32 pk sk -> js_string m ->
  Z.of_nat (List.length (TextEncoder_encode m)) <= 190 ->
  exists c,
    encrypt this m w = (inr c, drew_and_called CallEncrypt w) /\
    rfc4648_valid (unpadded c) = false /\
    forall w', holds w' this pk sk ->
      decrypt this (unpadded c) w'
      = (inr (TextDecoder_decode (TextEncoder_encode m)),
         called CallDecrypt w').
Proof.
  intros Hh Hp Hm Hl.
  destruct (decrypt_encrypt P w this pk sk m Hh Hp Hm Hl)
    as (block & [Bb Lb] & Eo & Ee & _).
  exists (Base64.encode block). split; [assumption|]. split.
  - apply unpadded_not_rfc4648; [assumption|]. rewrite Lb. discriminate.
  - intros w' Hh'.
    rewrite (decrypt_run P w' this pk sk _ block Hh'
               (Base64Facts.atob_unpadded block Bb)).
    rewrite Uint8Array_from_charCodes_bytes by assumption.
    destruct (oaep_correct _ _ _ _ _ Hp (entropy w (draws w))
                (TextEncoder_encode m) (TextEncoder_encode_bytes m Hm)
                ltac:(unfold oaep_capacity; lia))
      as (block' & He' & _ & _ & Hd').
    assert (block' = block) by congruence. subst block'.
    rewrite Hd'. reflexivity.
Qed.

(** C7, as amended.  For every input that [atob] rejects, [decrypt] fails
    with InvalidCharacterError (the specification's DecodingError) and the
    host is left as it was: the provider is not called.  Every Base64 text in
    the sense of RFC 4648 is accepted by [atob], so every rejected input is
    indeed not valid Base64; but [atob] also accepts texts that are not
    (padding left out, ASCII whitespace inside), and on those [decrypt] goes
    on to the provider. *)
Theorem C7_rejected_input P (w : World P) this data :
  Base64.forgiving_decode data = None ->
  decrypt this data w = (inl InvalidCharacterError, w) /\
  trace (snd (decrypt this data w)) = trace w /\
  rfc4648_valid data = false.
Proof.
  intros Hd.
  assert (E : decrypt this data w = (inl InvalidCharacterError, w)).
  { apply decrypt_atob_throws. unfold Base64.atob. rewrite Hd. reflexivity. }
  split; [exact E|]. split; [rewrite E; reflexivity|].
  destruct (rfc4648_valid data) eqn:Hv; [|reflexivity].
  exfalso. exact (rfc4648_valid_accepted data Hv Hd).
Qed.

Lemma C7_rejected_input_witness :
  Base64.forgiving_decode (lit "not-base64!!") = None /\
  decrypt 0 (lit "not-base64!!") model_world
    = (inl InvalidCharacterError, model_world).
Proof.
  split; [reflexivity|].
  exact (proj1 (C7_rejected_input ModelProvider.provider model_world 0
                  (lit "not-base64!!") eq_refl)).
Defined.

(** C7, the claim as stated fails: the Base64 text of a ciphertext with its
    padding left out is not valid Base64 (RFC 4648, padded), yet [decrypt]
    does not fail on it: it calls the provider and returns the plaintext. *)
Lemma C7_counterexample :
  rfc4648_valid (unpadded (model_ciphertext (lit "abc"))) = false /\
  decrypt 0 (unpadded (model_ciphertext (lit "abc"))) model_world
    = (inr (lit "abc"), called CallDecrypt model_world) /\
  trace (called CallDecrypt model_world) = CallDecrypt :: trace model_world.
Proof.
  assert (Hb : bytes (model_block (lit "abc"))).
  { apply model_block_bytes. vm_compute. discriminate. }
  split; [|split; [|reflexivity]].
  - apply unpadded_not_rfc4648; [exact Hb|]. vm_compute. discriminate.
  - unfold model_ciphertext.
    rewrite (decrypt_run ModelProvider.provider model_world 0 model_pk
               model_sk _ _ model_holds
               (Base64Facts.atob_unpadded _ Hb)).
    rewrite Uint8Array_from_charCodes_bytes by exact Hb.
    assert (Hd : decrypt_op ModelProvider.provider oaep_params model_sk
                   (model_block (lit "abc")) = inr (lit "abc"))
      by (vm_compute; reflexivity).
    rewrite Hd. reflexivity.
Qed.

(** ** Import *)

(** C8.  [importRSAKeyPairFromBase64] succeeds exactly when each of the two
    texts, on its own, is Base64 of an encoding that the provider imports
    (SPKI for the public key, PKCS#8 for the private key, RSA-OAEP with
    SHA-256).  It then returns the two keys, and the only provider calls it
    has made are the two calls of [importKey]: nothing is asked about how the
    two keys are related, and nothing is encrypted or decrypted to find
    out. *)
Theorem C8_import_checks_no_pairing P (w : World P) s1 s2 pk sk :
  (forall b1 b2,
     Base64.atob s1 = inr b1 -> Base64.atob s2 = inr b2 ->
     importKey P Spki (Uint8Array_from_charCodes b1) importKey_params true
               [UEncrypt] = inr pk ->
     importKey P Pkcs8 (Uint8Array_from_charCodes b2) importKey_params true
               [UDecrypt] = inr sk ->
     importRSAKeyPairFromBase64 s1 s2 w
     = (inr (mkInstance pk sk),
        called (CallImportKey Pkcs8) (called (CallImportKey Spki) w))) /\
  (fst (importRSAKeyPairFromBase64 s1 s2 w) = inr (mkInstance pk sk) ->
   exists b1 b2,
     Base64.atob s1 = inr b1 /\ Base64.atob s2 = inr b2 /\
     importKey P Spki (Uint8Array_from_charCodes b1) importKey_params true
               [UEncrypt] = inr pk /\
     importKey P Pkcs8 (Uint8Array_from_charCodes b2) importKey_params true
               [UDecrypt] = inr sk).
Proof.
  split.
  - intros b1 b2 A1 A2 I1 I2.
    unfold importRSAKeyPairFromBase64, bind, subtle_importKey, bind,
      record_call, lift, ret.
    rewrite A1, A2, I1, I2. reflexivity.
  - unfold importRSAKeyPairFromBase64, bind, subtle_importKey, bind,
      record_call, lift, ret.
    destruct (Base64.atob s1) as [e1|b1]; [discriminate|].
    destruct (Base64.atob s2) as [e2|b2]; [discriminate|].
    destruct (importKey P Spki _ _ _ _) as [e3|pk'] eqn:I1; [discriminate|].
    destruct (importKey P Pkcs8 _ _ _ _) as [e4|sk'] eqn:I2; [discriminate|].
    cbn [fst]. intros E. injection E as -> ->.
    exists b1, b2. repeat split; assumption.
Qed.

(** In the model provider the public key of one pair and the private key of
    another are not a pair: what the first encrypts the second refuses. *)
Lemma model_unpaired :
  ~ oaep_pair ModelProvider.provider 256 32 model_pk other_sk.
Proof.
  intros Hp.
  destruct (oaep_correct _ _ _ _ _ Hp [] [] (Forall_nil _) ltac:(unfold oaep_capacity; cbn; lia))
    as (c & He & _ & _ & Hd).
  assert (Ec : encrypt_op ModelProvider.provider oaep_params model_pk [] []
               = inr (ModelProvider.block 256 (repeat 0 32) [] [])).
  { apply ModelProviderFacts.encrypt_block. cbn. lia. }
  assert (Hc : c = ModelProvider.block 256 (repeat 0 32) [] [])
    by congruence.
  subst c.
  assert (Ed : decrypt_op ModelProvider.provider oaep_params other_sk
                 (ModelProvider.block 256 (repeat 0 32) [] [])
               = inl OperationError) by (vm_compute; reflexivity).
  rewrite Ed in Hd. discriminate.
Qed.

Lemma C8_import_checks_no_pairing_witness :
  ~ oaep_pair ModelProvider.provider 256 32 model_pk other_sk /\
  importRSAKeyPairFromBase64
    (Base64.encode (48 :: 1 :: 0 :: repeat 0 32))
    (Base64.encode (49 :: 1 :: 0 :: repeat 7 32)) model_world
  = (inr (mkInstance (P:=ModelProvider.provider) model_pk other_sk),
     called (CallImportKey Pkcs8) (called (CallImportKey Spki) model_world)).
Proof.
  split; [exact model_unpaired|].
  apply (proj1 (C8_import_checks_no_pairing ModelProvider.provider
                  model_world _ _ model_pk other_sk)
           (48 :: 1 :: 0 :: repeat 0 32) (49 :: 1 :: 0 :: repeat 7 32)).
  - vm_compute. reflexivity.
  - vm_compute. reflexivity.
  - vm_compute. reflexivity.
  - vm_compute. reflexivity.
Defined.

(** ** The instance and its keys *)

(** C9.  No operation of the class changes an existing instance: after any
    of the constructor, [New], [generateKeyPair], export, import, [encrypt]
    and [decrypt], every object that was there is there with the same
    [publicKey] and [privateKey].  The class has no other operation, so none
    that replaces the keys. *)
Theorem C9_instances_never_change P (op : Operation P) (w : World P) this o :
  nth_error (heap w) this = Some o ->
  nth_error (heap (perform op w)) this = Some o.
Proof.
  intros H. apply (extends_lookup P w); [|assumption].
  destruct op; cbn [perform].
  - apply frames_constructor.
  - apply frames_New.
  - apply frames_generateKeyPair.
  - apply frames_export.
  - apply frames_import.
  - apply frames_encrypt.
  - apply frames_decrypt.
Qed.

Lemma C9_instances_never_change_witness :
  nth_error (heap model_world) 0
    = Some (mkInstance (P:=ModelProvider.provider) model_pk model_sk) /\
  nth_error (heap (perform (OpEncrypt 0 (lit "abc")) model_world)) 0
    = Some (mkInstance (P:=ModelProvider.provider) model_pk model_sk) /\
  nth_error (heap (perform OpNew model_world)) 0
    = Some (mkInstance (P:=ModelProvider.provider) model_pk model_sk).
Proof.
  split; [reflexivity|]. split.
  - exact (C9_instances_never_change ModelProvider.provider
             (OpEncrypt 0 (lit "abc")) model_world 0 _ eq_refl).
  - exact (C9_instances_never_change ModelProvider.provider
             OpNew model_world 0 _ eq_refl).
Defined.

(** ** [useServices] *)

Import ServicesContext.

(** C10.  When the context value is null (no provider around the use site,
    or a provider whose value is null), [useServices] throws an Error with
    the message "useServices must be used within a ServicesProvider"; when
    the nearest provider supplies a value, [useServices] returns that value
    unchanged. *)
Theorem C10_useServices (enclosing : list (option IServices)) :
  (useContext ServicesContext enclosing = None ->
   useServices enclosing
   = inl (ErrorMsg "useServices must be used within a ServicesProvider")) /\
  (forall services,
     useContext ServicesContext enclosing = Some services ->
     useServices enclosing = inr services).
Proof.
  unfold useServices. split.
  - intros ->. reflexivity.
  - intros services ->. reflexivity.
Qed.

Lemma C10_useServices_witness :
  useContext ServicesContext [] = None /\
  useServices []
  = inl (ErrorMsg "useServices must be used within a ServicesProvider") /\
  useServices [Some {| encryptionService := 0 |}]
  = inr {| encryptionService := 0 |}.
Proof.
  split; [reflexivity|]. split.
  - exact (proj1 (C10_useServices []) eq_refl).
  - exact (proj2 (C10_useServices [Some {| encryptionService := 0 |}])
             {| encryptionService := 0 |} eq_refl).
Defined.

(** Inside [ServicesProvider], once the services exist, [useServices] returns
    them; before that nothing is rendered but the placeholder. *)
Lemma useServices_inside_provider (services : IServices) enclosing :
  ServicesProvider (Some services) useServices enclosing
  = Children (inr services).
Proof. reflexivity. Qed.

Lemma ServicesProvider_loading {R} (children : list (option IServices) -> R)
    enclosing :
  ServicesProvider None children enclosing = Loading.
Proof. reflexivity. Qed.

(* ===================================================================== *)
(** * Further properties *)
(* ===================================================================== *)

(** ** What [btoa] writes *)

Lemma in_alphabet_char v : is_sextet v -> in_alphabet (Base64.char_of_sextet v) = true.
Proof.
  intros Hv. unfold in_alphabet.
  rewrite Base64Facts.sextet_of_char_of_sextet by assumption. reflexivity.
Qed.

(** The Base64 text of a byte sequence is Base64 in the sense of RFC 4648. *)
Lemma rfc4648_valid_encode bs : bytes bs -> rfc4648_valid (Base64.encode bs) = true.
Proof.
  induction bs as [|a|a b|a b c rest IH] using list_ind3; intros Hb;
    repeat match goal with
           | H : bytes (_ :: _) |- _ => apply bytes_cons_inv in H; destruct H
           end.
  - reflexivity.
  - cbn [Base64.encode rfc4648_valid].
    rewrite Base64Facts.sextet_2_tail_eq, (shiftr_div a 2) by lia.
    change (2 ^ 2) with 4.
    rewrite !in_alphabet_char
      by (unfold is_sextet, is_byte in *; Z.div_mod_to_equations; lia).
    rewrite Z.eqb_refl. cbn [andb orb]. apply orb_true_r.
  - cbn [Base64.encode rfc4648_valid].
    rewrite Base64Facts.sextet_2_eq, Base64Facts.sextet_3_tail_eq,
      (shiftr_div a 2) by (assumption || lia).
    change (2 ^ 2) with 4.
    rewrite !in_alphabet_char
      by (unfold is_sextet, is_byte in *; Z.div_mod_to_equations; lia).
    rewrite Z.eqb_refl. cbn [andb orb]. rewrite orb_true_r. reflexivity.
  - specialize (IH ltac:(assumption)).
    cbn [Base64.encode].
    rewrite Base64Facts.sextet_2_eq, Base64Facts.sextet_3_eq, land_63,
      (shiftr_div a 2) by (assumption || lia).
    change (2 ^ 2) with 4. change (2 ^ 6) with 64.
    assert (A1 : in_alphabet (Base64.char_of_sextet (a / 4)) = true)
      by (apply in_alphabet_char; unfold is_sextet, is_byte in *;
          Z.div_mod_to_equations; lia).
    assert (A2 : in_alphabet (Base64.char_of_sextet (a mod 4 * 16 + b / 16))
                 = true)
      by (apply in_alphabet_char; unfold is_sextet, is_byte in *;
          Z.div_mod_to_equations; lia).
    assert (A3 : in_alphabet (Base64.char_of_sextet (b mod 16 * 4 + c / 64))
                 = true)
      by (apply in_alphabet_char; unfold is_sextet, is_byte in *;
          Z.div_mod_to_equations; lia).
    assert (A4 : in_alphabet (Base64.char_of_sextet (c mod 64)) = true)
      by (apply in_alphabet_char; unfold is_sextet, is_byte in *;
          Z.div_mod_to_equations; lia).
    destruct (Base64.encode rest) as [|e rest'] eqn:E.
    + cbn [rfc4648_valid]. rewrite A1, A2, A3, A4. reflexivity.
    + change (rfc4648_valid (?x1 :: ?x2 :: ?x3 :: ?x4 :: e :: rest'))
        with (in_alphabet x1 && in_alphabet x2 && in_alphabet x3
              && in_alphabet x4 && rfc4648_valid (e :: rest')).
      rewrite A1, A2, A3, A4, IH. reflexivity.
Qed.

Lemma encode_length_exact bs :
  Z.of_nat (List.length (Base64.encode bs))
  = base64_length (Z.of_nat (List.length bs)).
Proof.
  unfold base64_length.
  induction bs as [|a|a b|a b c rest IH] using list_ind3;
    try reflexivity.
  cbn [Base64.encode List.length].
  rewrite !Nat2Z.inj_succ in *. Z.div_mod_to_equations. lia.
Qed.

(** ** How long the UTF-8 text of a string is *)

Lemma encode_code_point_size cp :
  (cp <= 0xFFFF -> (List.length (UTF8.encode_code_point cp) <= 3)%nat) /\
  (List.length (UTF8.encode_code_point cp) <= 4)%nat.
Proof.
  unfold UTF8.encode_code_point.
  destruct (cp <=? 0x7F); [cbn; lia|].
  destruct (cp <=? 0x7FF); [cbn; lia|].
  destruct (cp <=? 0xFFFF) eqn:E; [cbn; lia|].
  apply Z.leb_gt in E. split; [lia|cbn; lia].
Qed.

(** At most three bytes per code unit. *)
Lemma TextEncoder_encode_length s :
  js_string s ->
  (List.length (TextEncoder_encode s) <= 3 * List.length s)%nat.
Proof.
  unfold TextEncoder_encode, UTF8.encode.
  induction s as [|c rest IH1 IH2] using list_ind_pair; intros Hs.
  { cbn. lia. }
  inversion Hs as [|? ? Hc Hrest]; subst.
  specialize (IH1 Hrest).
  cbn [UTF16.to_scalar_values].
  destruct (UTF16.is_high_surrogate c) eqn:Eh.
  - destruct rest as [|d rest'].
    + cbn. lia.
    + destruct (UTF16.is_low_surrogate d) eqn:El.
      * cbn [flat_map]. rewrite length_app.
        cbn [tl] in IH2. inversion Hrest as [|? ? _ Hrest']; subst.
        specialize (IH2 Hrest').
        pose proof (proj2 (encode_code_point_size
          (0x10000 + Z.shiftl (c - 0xD800) 10 + (d - 0xDC00)))).
        cbn [List.length]. lia.
      * cbn [flat_map]. rewrite length_app.
        change (List.length (UTF8.encode_code_point REPLACEMENT)) with 3%nat.
        cbn [List.length] in *. lia.
  - destruct (UTF16.is_low_surrogate c) eqn:El.
    + cbn [flat_map]. rewrite length_app.
      change (List.length (UTF8.encode_code_point REPLACEMENT)) with 3%nat.
      cbn [List.length] in *. lia.
    + cbn [flat_map]. rewrite length_app.
      unfold is_code_unit in Hc.
      pose proof (proj1 (encode_code_point_size c) ltac:(lia)).
      cbn [List.length] in *. lia.
Qed.

(** ASCII text is its own UTF-8 text. *)
Lemma TextEncoder_encode_ascii s :
  Forall (fun c => 0 <= c <= 0x7F) s -> TextEncoder_encode s = s.
Proof.
  unfold TextEncoder_encode, UTF8.encode.
  induction 1 as [|c rest Hc _ IH]; [reflexivity|].
  cbn [UTF16.to_scalar_values].
  unfold UTF16.is_high_surrogate, UTF16.is_low_surrogate.
  rewrite (proj2 (Z.leb_gt 0xD800 c)), (proj2 (Z.leb_gt 0xDC00 c)) by lia.
  cbn [andb flat_map]. rewrite IH, UTF8Facts.encode_1 by lia. reflexivity.
Qed.

(** ** What [TextDecoder] returns *)

Lemma of_code_point_scalar cp rest :
  is_scalar cp ->
  js_string (UTF16.of_code_point cp) /\
  UTF16.well_formed (UTF16.of_code_point cp ++ rest) = UTF16.well_formed rest.
Proof.
  intros [Hr Hs]. unfold UTF16.of_code_point.
  destruct (cp <? 0x10000) eqn:E; unbool.
  - split.
    + apply Forall_cons; [unfold is_code_unit; lia|apply Forall_nil].
    + cbn [app UTF16.well_formed].
      unfold UTF16.is_high_surrogate, UTF16.is_low_surrogate.
      destruct (Z.le_gt_cases 0xD800 cp).
      * rewrite (proj2 (Z.leb_le 0xD800 cp)), (proj2 (Z.leb_gt cp 0xDBFF)),
          (proj2 (Z.leb_le 0xDC00 cp)), (proj2 (Z.leb_gt cp 0xDFFF)) by lia.
        reflexivity.
      * rewrite (proj2 (Z.leb_gt 0xD800 cp)), (proj2 (Z.leb_gt 0xDC00 cp))
          by lia.
        reflexivity.
  - rewrite land_1023, shiftr_div by lia. change (2 ^ 10) with 1024.
    assert (H1 : 0 <= (cp - 65536) / 1024 <= 1023)
      by (Z.div_mod_to_equations; lia).
    assert (H2 : 0 <= (cp - 65536) mod 1024 <= 1023)
      by (Z.div_mod_to_equations; lia).
    split.
    + apply Forall_cons; [unfold is_code_unit; lia|].
      apply Forall_cons; [unfold is_code_unit; lia|apply Forall_nil].
    + cbn [app UTF16.well_formed].
      unfold UTF16.is_high_surrogate, UTF16.is_low_surrogate.
      rewrite (proj2 (Z.leb_le 0xD800 _)), (proj2 (Z.leb_le _ 0xDBFF)),
        (proj2 (Z.leb_le 0xDC00 _)), (proj2 (Z.leb_le _ 0xDFFF)) by lia.
      reflexivity.
Qed.

(** The code units of scalar values form a string without unpaired
    surrogates. *)
Lemma of_code_points_well_formed cps :
  Forall is_scalar cps ->
  js_string (UTF16.of_code_points cps) /\
  UTF16.well_formed (UTF16.of_code_points cps) = true.
Proof.
  unfold UTF16.of_code_points.
  induction 1 as [|cp cps Hcp _ [IHs IHw]]; [split; [apply Forall_nil|reflexivity]|].
  cbn [flat_map].
  destruct (of_code_point_scalar cp (flat_map UTF16.of_code_point cps) Hcp)
    as [Hs Hw].
  split; [apply Forall_app; split; assumption|].
  rewrite Hw. assumption.
Qed.

Lemma strip_bom_scalar cps : Forall is_scalar cps -> Forall is_scalar (strip_bom cps).
Proof.
  intros H. destruct cps as [|c rest]; [assumption|].
  cbn [strip_bom]. destruct (c =? BOM); [inversion H|]; assumption.
Qed.

(** The code units rebuilt from the scalar values of a string are never more
    than the string had. *)
Lemma of_to_scalar_values_length s :
  js_string s ->
  (List.length (UTF16.of_code_points (UTF16.to_scalar_values s))
   <= List.length s)%nat.
Proof.
  unfold UTF16.of_code_points.
  induction s as [|c rest IH1 IH2] using list_ind_pair; intros Hs;
    [cbn; lia|].
  inversion Hs as [|? ? Hc Hrest]; subst. specialize (IH1 Hrest).
  cbn [UTF16.to_scalar_values].
  destruct (UTF16.is_high_surrogate c) eqn:Eh.
  - destruct rest as [|d rest']; [cbn; lia|].
    inversion Hrest as [|? ? _ Hrest']; subst.
    cbn [tl] in IH2. specialize (IH2 Hrest').
    destruct (UTF16.is_low_surrogate d) eqn:El.
    + cbn [flat_map]. rewrite UTF16Facts.of_code_point_pair by assumption.
      cbn [app List.length] in *. lia.
    + cbn [flat_map]. change (UTF16.of_code_point REPLACEMENT) with [0xFFFD].
      cbn [app List.length] in *. lia.
  - destruct (UTF16.is_low_surrogate c) eqn:El.
    + cbn [flat_map]. change (UTF16.of_code_point REPLACEMENT) with [0xFFFD].
      cbn [app List.length] in *. lia.
    + cbn [flat_map]. unfold UTF16.of_code_point at 1.
      unfold is_code_unit in Hc.
      rewrite (proj2 (Z.ltb_lt c 0x10000)) by lia.
      cbn [app List.length] in *. lia.
Qed.

Lemma handler_invalid_lead b :
  0x80 <= b <= 0xC1 \/ 0xF5 <= b ->
  UTF8.handler UTF8.init b = UTF8.Error UTF8.init.
Proof.
  intros H. unfold UTF8.handler, UTF8.between.
  cbn [UTF8.bytes_needed UTF8.init Z.eqb].
  destruct H as [H|H].
  - rewrite (proj2 (Z.leb_gt b 0x7F)), (proj2 (Z.leb_gt 0xC2 b)),
      (proj2 (Z.leb_gt 0xE0 b)), (proj2 (Z.leb_gt 0xF0 b)) by lia.
    rewrite !andb_false_r. reflexivity.
  - rewrite (proj2 (Z.leb_gt b 0x7F)), (proj2 (Z.leb_gt b 0xDF)),
      (proj2 (Z.leb_gt b 0xEF)), (proj2 (Z.leb_gt b 0xF4)) by lia.
    rewrite !andb_false_r. reflexivity.
Qed.

Lemma handler_out_of_range c seen needed lo hi b :
  needed <> 0 -> ~ (lo <= b <= hi) ->
  UTF8.handler (UTF8.mkState c seen needed lo hi) b
  = UTF8.ErrorRestore UTF8.init.
Proof.
  intros Hn Hr. unfold UTF8.handler, UTF8.between.
  cbn [UTF8.bytes_needed UTF8.lower_boundary UTF8.upper_boundary].
  rewrite (proj2 (Z.eqb_neq needed 0)) by assumption.
  destruct (lo <=? b) eqn:E1; destruct (b <=? hi) eqn:E2; unbool;
    try reflexivity.
  exfalso. apply Hr. lia.
Qed.

Ltac split_tests :=
  repeat match goal with
  | H : context [if ?x =? ?y then _ else _] |- _ =>
      destruct (x =? y) eqn:?; unbool
  | |- context [if ?x =? ?y then _ else _] =>
      destruct (x =? y) eqn:?; unbool
  end.

Ltac pick_case tac :=
  first [ solve [left; tac] | right; pick_case tac | solve [tac] ].

Ltac arith_case :=
  cbn [UTF8.bytes_needed UTF8.bytes_seen UTF8.code_point
       UTF8.lower_boundary UTF8.upper_boundary];
  repeat split; try reflexivity; split_tests;
  try (Z.div_mod_to_equations; lia).

Ltac seen_counts :=
  change (0 + 1 =? 1) with true; change (0 + 1 =? 2) with false;
  change (0 + 1 =? 3) with false; change (1 + 1 =? 2) with true;
  change (1 + 1 =? 3) with false; change (2 + 1 =? 3) with true;
  change (0 + 1) with 1; change (1 + 1) with 2.

(** One byte of input keeps the decoder within its invariant, and what it
    emits is a scalar value. *)
Lemma handler_invariant st b :
  is_byte b -> decoder_invariant st ->
  match UTF8.handler st b with
  | UTF8.Continue st' => decoder_invariant st'
  | UTF8.Emit cp st' => is_scalar cp /\ decoder_invariant st'
  | UTF8.Error st' => decoder_invariant st'
  | UTF8.ErrorRestore st' => st' = UTF8.init
  end.
Proof.
  intros Hb Hinv. unfold is_byte in Hb.
  assert (Hinit : decoder_invariant UTF8.init)
    by (left; split; reflexivity).
  destruct st as [cp seen needed lo hi].
  unfold decoder_invariant in Hinv.
  cbn [UTF8.bytes_needed UTF8.bytes_seen UTF8.code_point
       UTF8.lower_boundary UTF8.upper_boundary] in Hinv.
  destruct Hinv as [[_ E]|Hinv].
  { rewrite E. clear E.
    destruct (Z.le_gt_cases b 0x7F).
    { rewrite UTF8Facts.handler_ascii by lia.
      split; [unfold is_scalar; lia|assumption]. }
    destruct (Z.le_gt_cases b 0xC1).
    { rewrite handler_invalid_lead by lia. assumption. }
    destruct (Z.le_gt_cases b 0xDF).
    { rewrite UTF8Facts.handler_lead2 by lia.
      unfold decoder_invariant. pick_case arith_case. }
    destruct (Z.le_gt_cases b 0xEF).
    { rewrite UTF8Facts.handler_lead3 by lia.
      unfold decoder_invariant. pick_case arith_case. }
    destruct (Z.le_gt_cases b 0xF4).
    { rewrite UTF8Facts.handler_lead4 by lia.
      unfold decoder_invariant. pick_case arith_case. }
    rewrite handler_invalid_lead by lia. assumption. }
  assert (Hcases :
    needed <> 0 /\ 0x80 <= lo /\ hi <= 0xBF /\
    ((needed = 1 /\ seen = 0 /\ 2 <= cp <= 31) \/
     (needed = 2 /\ seen = 0 /\ 0 <= cp <= 15 /\
      (cp = 0 -> lo = 0xA0) /\ (cp = 13 -> hi = 0x9F)) \/
     (needed = 2 /\ seen = 1 /\ 0x20 <= cp <= 0x3FF /\
      ~ (0x360 <= cp <= 0x37F)) \/
     (needed = 3 /\ seen = 0 /\ 0 <= cp <= 4 /\
      (cp = 0 -> lo = 0x90) /\ (cp = 4 -> hi = 0x8F)) \/
     (needed = 3 /\ seen = 1 /\ 0x10 <= cp <= 0x10F) \/
     (needed = 3 /\ seen = 2 /\ 0x400 <= cp <= 0x43FF))).
  { destruct Hinv as [H|[H|[H|[H|[H|H]]]]];
      decompose [and] H; subst; split_tests; subst;
      (split; [lia|split; [lia|split; [lia|]]]);
      pick_case ltac:(repeat split; lia). }
  clear Hinv. destruct Hcases as (Hn & Hlo & Hhi & Hc).
  destruct (Z.le_gt_cases lo b) as [L|L];
    [destruct (Z.le_gt_cases b hi) as [U|U]|];
    try (rewrite handler_out_of_range by lia; reflexivity).
  rewrite UTF8Facts.handler_continuation by lia.
  destruct Hc as [H|[H|[H|[H|[H|H]]]]]; decompose [and] H; subst;
    seen_counts; cbv iota.
  - split; [unfold is_scalar; lia|assumption].
  - unfold decoder_invariant. 
    assert (cp = 0 -> 0xA0 <= b) by (intros; lia).
    assert (cp = 13 -> b <= 0x9F) by (intros; lia).
    pick_case arith_case.
  - split; [unfold is_scalar; lia|assumption].
  - unfold decoder_invariant.
    assert (cp = 0 -> 0x90 <= b) by (intros; lia).
    assert (cp = 4 -> b <= 0x8F) by (intros; lia).
    pick_case arith_case.
  - unfold decoder_invariant. pick_case arith_case.
  - split; [unfold is_scalar; lia|assumption].
Qed.

(** Whatever the bytes, the decoder emits scalar values only. *)
Lemma run_scalar bs :
  bytes bs -> forall st, decoder_invariant st ->
  Forall is_scalar (UTF8.run st bs).
Proof.
  assert (Hrep : is_scalar REPLACEMENT) by (unfold is_scalar, REPLACEMENT; lia).
  assert (Hinit : decoder_invariant UTF8.init) by (left; split; reflexivity).
  induction 1 as [|b rest Hb _ IH]; intros st Hinv.
  - cbn [UTF8.run]. destruct (UTF8.bytes_needed st =? 0);
      [apply Forall_nil|apply Forall_cons; [assumption|apply Forall_nil]].
  - cbn [UTF8.run].
    pose proof (handler_invariant st b Hb Hinv) as Hst.
    destruct (UTF8.handler st b) as [st'|cp st'|st'|st'].
    + apply IH; assumption.
    + destruct Hst. apply Forall_cons; [assumption|apply IH; assumption].
    + apply Forall_cons; [assumption|apply IH; assumption].
    + subst st'. apply Forall_cons; [assumption|].
      pose proof (handler_invariant UTF8.init b Hb Hinit) as Hst'.
      destruct (UTF8.handler UTF8.init b) as [st'|cp st'|st'|st'].
      * apply IH; assumption.
      * destruct Hst'. apply Forall_cons; [assumption|apply IH; assumption].
      * apply Forall_cons; [assumption|apply IH; assumption].
      * subst st'. apply IH; assumption.
Qed.

(** [TextDecoder.decode] returns a string of code units without unpaired
    surrogates, whatever the bytes. *)
Lemma TextDecoder_decode_well_formed plain :
  bytes plain ->
  js_string (TextDecoder_decode plain) /\
  UTF16.well_formed (TextDecoder_decode plain) = true.
Proof.
  intros Hb. unfold TextDecoder_decode. apply of_code_points_well_formed.
  apply strip_bom_scalar. unfold UTF8.decode.
  apply run_scalar; [assumption|left; split; reflexivity].
Qed.

(** ** [AsymmetricEncryption]: further properties *)

(** The two codecs give a string back exactly when it has no unpaired
    surrogate and no U+FEFF in front. *)
Lemma text_roundtrip_iff m :
  js_string m ->
  TextDecoder_decode (TextEncoder_encode m) = m <->
  UTF16.well_formed m = true /\ no_leading_bom m = true.
Proof.
  intros Hm. split.
  - intros E. rewrite TextDecoder_TextEncoder in E by assumption.
    pose proof (UTF16Facts.to_scalar_values_scalar m Hm) as Hsv.
    split.
    + rewrite <- E.
      apply of_code_points_well_formed, strip_bom_scalar; assumption.
    + destruct m as [|c rest]; [reflexivity|].
      cbn [no_leading_bom]. destruct (c =? BOM) eqn:Ec; [|reflexivity].
      exfalso. apply Z.eqb_eq in Ec. subst c.
      change (UTF16.to_scalar_values (BOM :: rest))
        with (BOM :: UTF16.to_scalar_values rest) in E.
      change (strip_bom (BOM :: UTF16.to_scalar_values rest))
        with (UTF16.to_scalar_values rest) in E.
      inversion Hm as [|? ? _ Hrest]; subst.
      pose proof (of_to_scalar_values_length rest Hrest) as Hl.
      rewrite E in Hl. cbn [List.length] in Hl. lia.
  - intros [Hw Hb]. apply text_roundtrip; assumption.
Qed.

(** X1.  On an instance made by [New], [encrypt] followed by [decrypt] gives
    back exactly the text that was encrypted if and only if the text has no
    unpaired surrogate and does not begin with U+FEFF (for every text whose
    UTF-8 form has at most 190 bytes). *)
Theorem X1_roundtrip_exactly_when P (w : World P) pk sk m :
  Conforms P ->
  generateKey P generateKey_params true [UEncrypt; UDecrypt]
              (entropy w (draws w)) = inr (pk, sk) ->
  js_string m ->
  Z.of_nat (List.length (TextEncoder_encode m)) <= 190 ->
  fst ((this <- New ;; c <- encrypt this m ;; decrypt this c) w) = inr m <->
  UTF16.well_formed m = true /\ no_leading_bom m = true.
Proof.
  intros HP Hg Hm Hl.
  destruct (New_run P w pk sk Hg) as (w1 & EN & Hh & _).
  destruct (generateKey_pair P HP _ pk sk Hg) as [Hp _].
  unfold bind at 1. rewrite EN.
  rewrite (encrypt_then_decrypt P w1 _ pk sk m Hh Hp Hm Hl). cbn [fst].
  rewrite <- (text_roundtrip_iff m Hm).
  split; [intros E; injection E as E; exact E|intros ->; reflexivity].
Qed.

Lemma X1_roundtrip_exactly_when_witness :
  fst ((this <- New ;; c <- encrypt this (lit "Hello, World!") ;;
        decrypt this c) ModelProvider.world0)
  = inr (lit "Hello, World!").
Proof.
  apply (proj2 (X1_roundtrip_exactly_when ModelProvider.provider
                  ModelProvider.world0 model_pk model_sk
                  (lit "Hello, World!") ModelProviderFacts.conforms eq_refl
                  (js_string_lit _) ltac:(vm_compute; discriminate))).
  split; reflexivity.
Defined.

(** X2.  Generating a pair, exporting it and importing the two texts gives
    back the generated keys.  Along the way the provider is called five
    times (generate, export twice, import twice) and never to encrypt or
    decrypt; one random value is drawn and no object is created. *)
Theorem X2_export_import_returns_the_pair P (w : World P) pk sk :
  Conforms P ->
  generateKey P generateKey_params true [UEncrypt; UDecrypt]
              (entropy w (draws w)) = inr (pk, sk) ->
  exists w',
    (keyPair <- generateKeyPair ;;
     exported <- exportRSAKeyPairToBase64 keyPair ;;
     importRSAKeyPairFromBase64 (fst exported) (snd exported)) w
    = (inr (mkInstance pk sk), w') /\
    trace w' = [CallImportKey Pkcs8; CallImportKey Spki;
                CallExportKey Pkcs8; CallExportKey Spki; CallGenerateKey]
               ++ trace w /\
    draws w' = S (draws w) /\ heap w' = heap w.
Proof.
  intros HP Hg.
  destruct (generateKey_pair P HP _ pk sk Hg) as [_ Ht].
  eexists. split.
  - unfold bind at 1. rewrite (generateKeyPair_run P w pk sk Hg).
    apply (export_then_import P _ pk sk Ht).
  - repeat split.
Qed.

Lemma X2_export_import_returns_the_pair_witness :
  exists w',
    (keyPair <- generateKeyPair ;;
     exported <- exportRSAKeyPairToBase64 keyPair ;;
     importRSAKeyPairFromBase64 (fst exported) (snd exported))
      ModelProvider.world0
    = (inr (mkInstance (P:=ModelProvider.provider) model_pk model_sk), w') /\
    trace w' = [CallImportKey Pkcs8; CallImportKey Spki;
                CallExportKey Pkcs8; CallExportKey Spki; CallGenerateKey]
               ++ trace ModelProvider.world0 /\
    draws w' = S (draws ModelProvider.world0) /\
    heap w' = heap ModelProvider.world0.
Proof.
  exact (X2_export_import_returns_the_pair ModelProvider.provider
           ModelProvider.world0 model_pk model_sk
           ModelProviderFacts.conforms eq_refl).
Defined.

Lemma model_encrypt_hello :
  encrypt 0 (lit "Hello, World!") model_world
  = (inr model_ciphertext_of_hello, drew_and_called CallEncrypt model_world).
Proof.
  rewrite (encrypt_run ModelProvider.provider model_world 0 model_pk model_sk
             _ model_holds).
  assert (E : encrypt_op ModelProvider.provider oaep_params model_pk
                (entropy model_world (draws model_world))
                (TextEncoder_encode (lit "Hello, World!"))
              = inr (ModelProvider.block 256 (repeat 0 32) (repeat 1 32)
                       (TextEncoder_encode (lit "Hello, World!")))).
  { apply ModelProviderFacts.encrypt_block. vm_compute. discriminate. }
  rewrite E.
  rewrite fromCharCode_bytes, Base64Facts.btoa_bytes
    by (apply ModelProviderFacts.block_bytes; vm_compute; discriminate).
  reflexivity.
Qed.

(** A successful [encrypt] has the block of the provider behind it. *)
Lemma encrypt_success P (w w' : World P) this pk sk m c :
  holds w this pk sk -> oaep_pair P 256 32 pk sk -> js_string m ->
  encrypt this m w = (inr c, w') ->
  exists block,
    bytes block /\ Z.of_nat (List.length block) = 256 /\
    c = Base64.encode block /\
    Z.of_nat (List.length (TextEncoder_encode m)) <= 190.
Proof.
  intros Hh Hp Hm E.
  destruct (Z.le_gt_cases (Z.of_nat (List.length (TextEncoder_encode m))) 190)
    as [Hl|Hl].
  - destruct (decrypt_encrypt P w this pk sk m Hh Hp Hm Hl)
      as (block & [Bb Lb] & _ & Ee & _).
    rewrite Ee in E. injection E as <- _.
    exists block. repeat split; assumption.
  - exfalso. rewrite (encrypt_run P w this pk sk m Hh) in E.
    rewrite (oaep_too_long _ _ _ _ _ Hp) in E
      by (unfold oaep_capacity; lia).
    discriminate.
Qed.

(** X3.  Whenever [encrypt] succeeds, the ciphertext is Base64 in the sense
    of RFC 4648 (standard alphabet, padded), has exactly 344 characters, and
    [atob] decodes it to a block of 256 bytes. *)
Theorem X3_ciphertext_is_padded_base64 P (w w' : World P) this pk sk m c :
  holds w this pk sk -> oaep_pair P 256 32 pk sk -> js_string m ->
  encrypt this m w = (inr c, w') ->
  rfc4648_valid c = true /\
  Z.of_nat (List.length c) = 344 /\
  exists block,
    Base64.atob c = inr block /\ bytes block /\
    Z.of_nat (List.length block) = 256.
Proof.
  intros Hh Hp Hm E.
  destruct (encrypt_success P w w' this pk sk m c Hh Hp Hm E)
    as (block & Bb & Lb & -> & _).
  split; [apply rfc4648_valid_encode; assumption|]. split.
  - rewrite encode_length_exact, Lb. reflexivity.
  - exists block. split; [apply Base64Facts.atob_encode; assumption|].
    split; assumption.
Qed.

Lemma X3_ciphertext_is_padded_base64_witness :
  rfc4648_valid (model_ciphertext_of_hello) = true /\
  Z.of_nat (List.length (model_ciphertext_of_hello)) = 344.
Proof.
  destruct (X3_ciphertext_is_padded_base64 ModelProvider.provider
              model_world (drew_and_called CallEncrypt model_world) 0
              model_pk model_sk (lit "Hello, World!")
              model_ciphertext_of_hello model_holds model_oaep_pair
              (js_string_lit _) model_encrypt_hello) as (H1 & H2 & _).
  split; assumption.
Defined.

(** X4.  The two texts [exportRSAKeyPairToBase64] returns for a generated
    pair are Base64 in the sense of RFC 4648: only characters of the
    alphabet and '=' padding at the end, a length that is a multiple of four
    (what the source's test checks with its regular expression), and [atob]
    decodes each to the bytes the provider exported. *)
Theorem X4_exported_keys_are_base64 P (w : World P) pk sk :
  Conforms P ->
  generateKey P generateKey_params true [UEncrypt; UDecrypt]
              (entropy w (draws w)) = inr (pk, sk) ->
  exists spki pkcs8,
    exportKey P Spki pk = inr spki /\ exportKey P Pkcs8 sk = inr pkcs8 /\
    fst (exportRSAKeyPairToBase64 (mkInstance pk sk) w)
      = inr (Base64.encode spki, Base64.encode pkcs8) /\
    rfc4648_valid (Base64.encode spki) = true /\
    rfc4648_valid (Base64.encode pkcs8) = true /\
    Base64.atob (Base64.encode spki) = inr spki /\
    Base64.atob (Base64.encode pkcs8) = inr pkcs8.
Proof.
  intros HP Hg.
  destruct (generateKey_pair P HP _ pk sk Hg) as [_ Ht].
  destruct Ht as [[spki (E1 & B1 & _)] [pkcs8 (E2 & B2 & _)]].
  exists spki, pkcs8.
  split; [assumption|]. split; [assumption|]. split.
  - rewrite (export_run P w pk sk spki pkcs8 E1 B1 E2 B2). reflexivity.
  - repeat split;
      first [ apply rfc4648_valid_encode; assumption
            | apply Base64Facts.atob_encode; assumption ].
Qed.

Lemma X4_exported_keys_are_base64_witness :
  exists spki pkcs8,
    exportKey ModelProvider.provider Spki model_pk = inr spki /\
    exportKey ModelProvider.provider Pkcs8 model_sk = inr pkcs8 /\
    fst (exportRSAKeyPairToBase64
           (mkInstance (P:=ModelProvider.provider) model_pk model_sk)
           ModelProvider.world0)
      = inr (Base64.encode spki, Base64.encode pkcs8) /\
    rfc4648_valid (Base64.encode spki) = true /\
    rfc4648_valid (Base64.encode pkcs8) = true /\
    Base64.atob (Base64.encode spki) = inr spki /\
    Base64.atob (Base64.encode pkcs8) = inr pkcs8.
Proof.
  exact (X4_exported_keys_are_base64 ModelProvider.provider
           ModelProvider.world0 model_pk model_sk
           ModelProviderFacts.conforms eq_refl).
Defined.

(** X5.  [importRSAKeyPairFromBase64] decodes both texts before it hands
    anything to the provider: when [atob] rejects either text, the import
    fails with InvalidCharacterError and the provider has not been called,
    not even for a public key that was fine.  When both texts decode and
    the provider refuses the public key, its error is the result and the
    private key is never handed over. *)
Theorem X5_import_failures P (w : World P) s1 s2 :
  (Base64.forgiving_decode s1 = None \/ Base64.forgiving_decode s2 = None ->
   importRSAKeyPairFromBase64 s1 s2 w = (inl InvalidCharacterError, w)) /\
  (forall b1 b2 e,
     Base64.atob s1 = inr b1 -> Base64.atob s2 = inr b2 ->
     importKey P Spki (Uint8Array_from_charCodes b1) importKey_params true
               [UEncrypt] = inl e ->
     importRSAKeyPairFromBase64 s1 s2 w
     = (inl e, called (CallImportKey Spki) w)).
Proof.
  split.
  - intros H.
    unfold importRSAKeyPairFromBase64, bind, lift, Base64.atob.
    destruct (Base64.forgiving_decode s1) as [b1|] eqn:E1; [|reflexivity].
    destruct H as [H|H]; [discriminate|]. rewrite H. reflexivity.
  - intros b1 b2 e A1 A2 I1.
    unfold importRSAKeyPairFromBase64, bind, subtle_importKey, bind,
      record_call, lift.
    rewrite A1, A2, I1. reflexivity.
Qed.

Lemma X5_import_failures_witness :
  importRSAKeyPairFromBase64
    (Base64.encode (48 :: 1 :: 0 :: repeat 0 32))
    (lit "also-not-base64!!") model_world
  = (inl InvalidCharacterError, model_world) /\
  importRSAKeyPairFromBase64 (lit "TWFu") (lit "TWFu") model_world
  = (inl DataError, called (CallImportKey Spki) model_world).
Proof.
  split.
  - apply (proj1 (X5_import_failures ModelProvider.provider model_world
                    _ (lit "also-not-base64!!"))).
    right. reflexivity.
  - apply (proj2 (X5_import_failures ModelProvider.provider model_world
                    (lit "TWFu") (lit "TWFu")) (lit "Man") (lit "Man")).
    + reflexivity.
    + reflexivity.
    + vm_compute. reflexivity.
Defined.

(** X6.  Every string of at most 63 UTF-16 code units, and every ASCII
    string of at most 190 characters, can be encrypted: its UTF-8 form fits
    the block, since a code unit gives at most three bytes.  The bound of 63
    is sharp: 64 times the character U+20AC is refused. *)
Theorem X6_short_strings_fit P (w : World P) this pk sk m :
  holds w this pk sk -> oaep_pair P 256 32 pk sk -> js_string m ->
  ((List.length m <= 63)%nat \/
   (Forall (fun c => 0 <= c <= 0x7F) m /\ (List.length m <= 190)%nat)) ->
  (exists c, encrypt this m w = (inr c, drew_and_called CallEncrypt w)) /\
  encrypt this (repeat 0x20AC 64) w
  = (inl OperationError, drew_and_called CallEncrypt w).
Proof.
  intros Hh Hp Hm Hlen. split.
  - assert (Hl : Z.of_nat (List.length (TextEncoder_encode m)) <= 190).
    { destruct Hlen as [H|[Ha H]].
      - pose proof (TextEncoder_encode_length m Hm). lia.
      - rewrite TextEncoder_encode_ascii by assumption. lia. }
    destruct (decrypt_encrypt P w this pk sk m Hh Hp Hm Hl)
      as (blk & _ & _ & He & _).
    exists (Base64.encode blk). exact He.
  - rewrite (encrypt_run P w this pk sk _ Hh).
    rewrite (oaep_too_long _ _ _ _ _ Hp)
      by (unfold oaep_capacity; vm_compute; reflexivity).
    reflexivity.
Qed.

Lemma X6_short_strings_fit_witness :
  (exists c, encrypt 0 (repeat 0x20AC 63) model_world
             = (inr c, drew_and_called CallEncrypt model_world)) /\
  encrypt 0 (repeat 0x20AC 64) model_world
  = (inl OperationError, drew_and_called CallEncrypt model_world).
Proof.
  apply (X6_short_strings_fit ModelProvider.provider model_world 0
           model_pk model_sk (repeat 0x20AC 63) model_holds model_oaep_pair).
  - apply js_string_repeat. unfold is_code_unit. lia.
  - left. rewrite repeat_length. lia.
Defined.

(** X7.  Two encryptions of one text on one instance, drawing two different
    OAEP seeds, give two different ciphertexts, and [decrypt] gives the same
    string for both; that string is the text itself when the text has no
    unpaired surrogate and does not begin with U+FEFF. *)
Theorem X7_two_encryptions_differ P (w : World P) this pk sk m :
  holds w this pk sk -> oaep_pair P 256 32 pk sk -> js_string m ->
  Z.of_nat (List.length (TextEncoder_encode m)) <= 190 ->
  bytes (entropy w (draws w)) ->
  Z.of_nat (List.length (entropy w (draws w))) = 32 ->
  bytes (entropy w (S (draws w))) ->
  Z.of_nat (List.length (entropy w (S (draws w)))) = 32 ->
  entropy w (draws w) <> entropy w (S (draws w)) ->
  exists c1 c2 d,
    c1 <> c2 /\
    fst (encrypt_twice this m w) = inr (c1, c2, d, d) /\
    (UTF16.well_formed m = true -> no_leading_bom m = true -> d = m).
Proof.
  intros Hh Hp Hm Hl B1 L1 B2 L2 Hne.
  destruct (encrypt_twice_run P w this pk sk m Hh Hp Hm Hl B1 L1 B2 L2 Hne)
    as (c1 & c2 & Hc & E).
  exists c1, c2, (TextDecoder_decode (TextEncoder_encode m)).
  split; [assumption|]. split; [assumption|].
  intros Hw Hb. apply text_roundtrip; assumption.
Qed.

Lemma X7_two_encryptions_differ_witness :
  exists c1 c2 d,
    c1 <> c2 /\
    fst (encrypt_twice 0 (lit "abc") model_world) = inr (c1, c2, d, d) /\
    (UTF16.well_formed (lit "abc") = true ->
     no_leading_bom (lit "abc") = true -> d = lit "abc").
Proof.
  apply (X7_two_encryptions_differ ModelProvider.provider model_world 0
           model_pk model_sk (lit "abc") model_holds model_oaep_pair
           (js_string_lit _)).
  - vm_compute. discriminate.
  - apply (bytes_repeat 1 32). unfold is_byte. lia.
  - reflexivity.
  - apply (bytes_repeat 2 32). unfold is_byte. lia.
  - reflexivity.
  - vm_compute. discriminate.
Defined.

(** X8.  Whatever [decrypt] returns is a string of UTF-16 code units
    without unpaired surrogates, for every input it accepts: the decoder
    turns every ill-formed byte sequence into U+FFFD and never emits a
    surrogate. *)
Theorem X8_decrypt_returns_well_formed_text P (w w' : World P) this pk sk
    data s :
  holds w this pk sk -> oaep_pair P 256 32 pk sk ->
  decrypt this data w = (inr s, w') ->
  js_string s /\ UTF16.well_formed s = true.
Proof.
  intros Hh Hp E.
  destruct (Base64.atob data) as [e|block] eqn:Ha.
  { rewrite (decrypt_atob_throws P w this data e Ha) in E. discriminate. }
  rewrite (decrypt_run P w this pk sk data block Hh Ha) in E.
  destruct (decrypt_op P oaep_params sk (Uint8Array_from_charCodes block))
    as [e|plain] eqn:Hd; [discriminate|].
  injection E as <- _.
  apply TextDecoder_decode_well_formed.
  exact (oaep_plain_bytes _ _ _ _ _ Hp _ _ Hd).
Qed.

Lemma X8_decrypt_returns_well_formed_text_witness :
  js_string [0xFFFD] /\ UTF16.well_formed [0xFFFD] = true.
Proof.
  apply (X8_decrypt_returns_well_formed_text ModelProvider.provider
           model_world (called CallDecrypt model_world) 0 model_pk model_sk
           (model_ciphertext [255]) [0xFFFD] model_holds model_oaep_pair).
  assert (Hb : bytes (model_block [255])).
  { apply model_block_bytes. vm_compute. discriminate. }
  unfold model_ciphertext.
  rewrite (decrypt_run ModelProvider.provider model_world 0 model_pk model_sk
             _ (model_block [255]) model_holds
             (Base64Facts.atob_encode _ Hb)).
  rewrite Uint8Array_from_charCodes_bytes by exact Hb.
  assert (Hd : decrypt_op ModelProvider.provider oaep_params model_sk
                 (model_block [255]) = inr [255])
    by (vm_compute; reflexivity).
  rewrite Hd. reflexivity.
Defined.

(** X9.  A ciphertext made on one instance is decrypted by another instance
    that was built from the first one's exported and imported keys: the
    result is what the first instance itself would return, the text itself
    when it has no unpaired surrogate and no U+FEFF in front. *)
Theorem X9_decrypt_with_imported_keys P (w : World P) this pk sk m :
  holds w this pk sk -> oaep_pair P 256 32 pk sk -> transportable P pk sk ->
  js_string m -> Z.of_nat (List.length (TextEncoder_encode m)) <= 190 ->
  fst (decrypt_after_transport this m w)
    = inr (TextDecoder_decode (TextEncoder_encode m)) /\
  (UTF16.well_formed m = true -> no_leading_bom m = true ->
   fst (decrypt_after_transport this m w) = inr m).
Proof.
  intros Hh Hp Ht Hm Hl.
  assert (E : fst (decrypt_after_transport this m w)
              = inr (TextDecoder_decode (TextEncoder_encode m))).
  { destruct (decrypt_encrypt P w this pk sk m Hh Hp Hm Hl)
      as (blk & [Bb _] & Eo & Ee & _).
    destruct (oaep_correct _ _ _ _ _ Hp (entropy w (draws w))
                (TextEncoder_encode m) (TextEncoder_encode_bytes m Hm)
                ltac:(unfold oaep_capacity; lia))
      as (blk' & Eo' & _ & _ & Hd).
    assert (blk' = blk) by congruence. subst blk'.
    destruct Ht as [[spki (E1 & B1 & I1)] [pkcs8 (E2 & B2 & I2)]].
    unfold decrypt_after_transport.
    unfold bind at 1. rewrite Ee.
    unfold bind at 1. unfold deref at 1.
    replace (nth_error (heap (drew_and_called CallEncrypt w)) this)
      with (Some (mkInstance pk sk)) by (symmetry; exact Hh).
    cbn [publicKey privateKey].
    unfold bind at 1.
    rewrite (export_run P _ pk sk spki pkcs8 E1 B1 E2 B2). cbn [fst snd].
    unfold bind at 1.
    rewrite (import_run P _ _ _ spki pkcs8 pk sk
               (Base64Facts.atob_encode spki B1)
               (Base64Facts.atob_encode pkcs8 B2));
      [ | rewrite Uint8Array_from_charCodes_bytes; assumption
        | rewrite Uint8Array_from_charCodes_bytes; assumption ].
    cbn [publicKey privateKey].
    match goal with
    | |- fst (bind (constructor pk sk) _ ?w0) = _ => set (w3 := w0)
    end.
    pose proof (holds_alloc P w3 pk sk) as Hh'.
    unfold bind at 1. unfold constructor at 1, alloc at 1.
    unfold constructor, alloc in Hh'. cbn [snd] in Hh'.
    cbv beta iota.
    rewrite (decrypt_run P _ _ pk sk _ blk Hh'
               (Base64Facts.atob_encode blk Bb)).
    rewrite Uint8Array_from_charCodes_bytes, Hd by assumption.
    reflexivity. }
  split; [exact E|].
  intros Hw Hb. rewrite E, text_roundtrip by assumption. reflexivity.
Qed.

Lemma X9_decrypt_with_imported_keys_witness :
  fst (decrypt_after_transport 0 (lit "Test message for key import/export")
         model_world)
  = inr (lit "Test message for key import/export").
Proof.
  apply (proj2 (X9_decrypt_with_imported_keys ModelProvider.provider
                  model_world 0 model_pk model_sk
                  (lit "Test message for key import/export")
                  model_holds model_oaep_pair
                  (ModelProviderFacts.model_transportable (repeat 0 32)
                     (bytes_repeat 0 32 ltac:(unfold is_byte; lia)))
                  (js_string_lit _) ltac:(vm_compute; discriminate)));
    reflexivity.
Defined.

(** ** [Logger.ts] *)



Module LoggingFacts.
Import Logging LoggingSpec.

Section Platform.

Variable toISOString : Date -> string.

(** One call of the private [log] on a logger with a console transport. *)
Lemma Logger_log_console lvl fmt ctx l m h :
  Logger_log (mkLogger lvl (ConsoleTransport toISOString fmt) ctx) l m h
  = if value lvl <=? value l
    then mkHost (clock h) (S (readings h))
           (console h ++
            [(method_of l,
              format_of toISOString fmt
                (mkLogObject l (with_context ctx m) (clock h (readings h))))])
    else h.
Proof.
  unfold Logger_log, shouldLog. cbn [this_level this_transport this_context].
  destruct (value lvl <=? value l); cbn [negb]; [|reflexivity].
  assert (E : match ctx with
              | Some context =>
                  if truthy context
                  then ("[" ++ context ++ "] " ++ m)%string else m
              | None => m
              end = with_context ctx m).
  { destruct ctx as [[|c s]|]; reflexivity. }
  rewrite E. unfold new_Date, ConsoleTransport, format_of.
  cbn [log level].
  destruct fmt; destruct l; reflexivity.
Qed.

(** A run of logging calls on a logger with a console transport. *)
Lemma run_log_calls lvl fmt ctx msgs h :
  run (mkLogger lvl (ConsoleTransport toISOString fmt) ctx) (log_calls msgs) h
  = (mkLogger lvl (ConsoleTransport toISOString fmt) ctx,
     mkHost (clock h)
            (readings h + List.length (passing lvl msgs))
            (console h ++
             lines (format_of toISOString fmt) ctx (clock h) (readings h)
                   (passing lvl msgs))).
Proof.
  revert h. induction msgs as [|[l m] rest IH]; intros h.
  - cbn [log_calls map run passing filter lines List.length].
    rewrite Nat.add_0_r, app_nil_r. destruct h; reflexivity.
  - cbn [log_calls map run fst snd]. fold (log_calls rest).
    rewrite Logger_log_console, IH.
    unfold passing. cbn [filter fst].
    destruct (value lvl <=? value l).
    + cbn [clock readings console lines List.length].
      rewrite <- app_assoc. cbn [app].
      rewrite Nat.add_succ_r. reflexivity.
    + reflexivity.
Qed.

(** X10.  A logger with a console transport writes exactly the messages
    whose level is at least its own, in the order of the calls, each as one
    console line: [console.error] for ERROR, [console.warn] for WARN,
    [console.log] for the rest, the text made by the formatter from the
    level, the message behind the context and the time read for it.  The
    clock is read once per message written and not at all for the others,
    and the logger is left as it was. *)
Theorem X10_console_output lvl fmt ctx msgs h :
  let this := mkLogger lvl (ConsoleTransport toISOString fmt) ctx in
  let after := run this (log_calls msgs) h in
  console (snd after)
  = console h ++
    lines (format_of toISOString fmt) ctx (clock h) (readings h)
          (passing lvl msgs) /\
  readings (snd after) = (readings h + List.length (passing lvl msgs))%nat /\
  clock (snd after) = clock h /\
  fst after = this.
Proof.
  cbv zeta. rewrite run_log_calls. repeat split.
Qed.

Lemma run_app this a b h :
  run this (a ++ b) h = run (fst (run this a h)) b (snd (run this a h)).
Proof.
  revert this h. induction a as [|[l m|t] a IH]; intros this h;
    cbn [app run]; [reflexivity|apply IH|apply IH].
Qed.

(** X11.  [setLevel] takes effect for the calls after it and for no call
    before it: messages logged before are filtered by the old level, those
    logged after by the new one, and the change itself writes nothing. *)
Theorem X11_setLevel_between_calls lvl fmt ctx before t after h :
  run (mkLogger lvl (ConsoleTransport toISOString fmt) ctx)
      (log_calls before ++ CallSetLevel t :: log_calls after) h
  = (mkLogger t (ConsoleTransport toISOString fmt) ctx,
     mkHost (clock h)
            (readings h + List.length (passing lvl before)
             + List.length (passing t after))
            (console h ++
             lines (format_of toISOString fmt) ctx (clock h) (readings h)
                   (passing lvl before) ++
             lines (format_of toISOString fmt) ctx (clock h)
                   (readings h + List.length (passing lvl before))
                   (passing t after))).
Proof.
  rewrite run_app, run_log_calls. cbn [fst snd run].
  unfold setLevel. cbn [this_transport this_context].
  rewrite run_log_calls. cbn [clock readings console].
  rewrite <- app_assoc. reflexivity.
Qed.

(** X12.  An error message is written whatever the level of the logger, as
    one [console.error] line; a debug message is written only by a logger
    whose level is DEBUG, and otherwise leaves console and clock as they
    were. *)
Theorem X12_error_always_debug_rarely lvl fmt ctx msg h :
  let this := mkLogger lvl (ConsoleTransport toISOString fmt) ctx in
  error this msg h
  = mkHost (clock h) (S (readings h))
      (console h ++
       [(console_error,
         format_of toISOString fmt
           (mkLogObject ERROR (with_context ctx msg) (clock h (readings h))))])
  /\
  (lvl <> DEBUG -> debug this msg h = h).
Proof.
  cbv zeta. unfold error, debug. rewrite !Logger_log_console. split.
  - destruct lvl; reflexivity.
  - intros Hl. destruct lvl; [contradiction| | |]; reflexivity.
Qed.


(** X14.  A logger built without a level and without a transport has level
    INFO and writes to the console with [defaultFormatter]: of a run of
    messages it writes all but the debug messages. *)
Theorem X14_default_logger ctx msgs h :
  let this := new_Logger toISOString (mkOptions None None ctx) in
  snd (run this (log_calls msgs) h)
  = mkHost (clock h)
      (readings h
       + List.length
           (filter (fun m => match fst m with DEBUG => false | _ => true end)
                   msgs))
      (console h ++
       lines (defaultFormatter toISOString) ctx (clock h) (readings h)
         (filter (fun m => match fst m with DEBUG => false | _ => true end)
                 msgs)).
Proof.
  cbv zeta. unfold new_Logger. cbn [opt_level opt_transport opt_context].
  rewrite run_log_calls. cbn [snd format_of].
  assert (E : passing INFO msgs
              = filter (fun m => match fst m with
                                 | DEBUG => false | _ => true end) msgs).
  { unfold passing. apply filter_ext. intros [l m]. destruct l; reflexivity. }
  rewrite E. reflexivity.
Qed.

End Platform.

(** X15.  An empty string as context is no context: a logger whose context
    is the empty string behaves, for every transport and every run of
    calls, like a logger without context (no "[] " in front of the
    message). *)
Theorem X15_empty_context_is_no_context lvl tr calls h :
  snd (run (mkLogger lvl tr (Some EmptyString)) calls h)
  = snd (run (mkLogger lvl tr None) calls h).
Proof.
  revert lvl h. induction calls as [|[l m|t] rest IH]; intros lvl h.
  - reflexivity.
  - cbn [run].
    replace (Logger_log (mkLogger lvl tr (Some EmptyString)) l m h)
      with (Logger_log (mkLogger lvl tr None) l m h) by reflexivity.
    apply IH.
  - cbn [run]. unfold setLevel. cbn [this_transport this_context]. apply IH.
Qed.

End LoggingFacts.

Lemma X12_error_always_debug_rarely_witness :
  Logging.debug
    (Logging.mkLogger Logging.INFO
       (Logging.ConsoleTransport LoggingSpec.epoch_iso None) (Some "MyApp"%string))
    "Debugging information" LoggingSpec.quiet_host
  = LoggingSpec.quiet_host.
Proof.
  apply (proj2 (LoggingFacts.X12_error_always_debug_rarely
                  LoggingSpec.epoch_iso Logging.INFO None
                  (Some "MyApp"%string) "Debugging information"
                  LoggingSpec.quiet_host)).
  discriminate.
Defined.

Example logger_usage_example :
  Logging.console
    (snd (Logging.run
            (Logging.new_Logger LoggingSpec.epoch_iso
               (Logging.mkOptions (Some Logging.DEBUG) None
                  (Some "MyApp"%string)))
            (LoggingSpec.log_calls
               [(Logging.DEBUG, "Debugging information"%string);
                (Logging.INFO, "Application started"%string);
                (Logging.WARN, "This is a warning"%string);
                (Logging.ERROR, "Critical error occurred"%string)])
            LoggingSpec.quiet_host))
  = [(Logging.console_log,
      "1970-01-01T00:00:00.000Z [DEBUG] [MyApp] Debugging information"%string);
     (Logging.console_log,
      "1970-01-01T00:00:00.000Z [INFO ] [MyApp] Application started"%string);
     (Logging.console_warn,
      "1970-01-01T00:00:00.000Z [WARN ] [MyApp] This is a warning"%string);
     (Logging.console_error,
      "1970-01-01T00:00:00.000Z [ERROR] [MyApp] Critical error occurred"%string)].
Proof. reflexivity. Qed.

(** ** [ServicesProvider] *)

(** X16.  When key generation fails, the effect of [ServicesProvider] leaves
    the services null: the component goes on rendering its placeholder, its
    children are not rendered and no instance has been created (the effect
    has no handler for the rejection, so the component shows no error
    either). *)
Theorem X16_provider_stays_loading P (w : World P) e :
  generateKey P generateKey_params true [UEncrypt; UDecrypt]
              (entropy w (draws w)) = inl e ->
  fst (mount_effect initial_services w) = None /\
  heap (snd (mount_effect initial_services w)) = heap w /\
  forall R (children : list (option ServicesContext.IServices) -> R) enclosing,
    ServicesContext.ServicesProvider (fst (mount_effect initial_services w))
      children enclosing
    = ServicesContext.Loading.
Proof.
  intros Hg.
  assert (E : New w = (inl e, drew_and_called CallGenerateKey w)).
  { unfold New, generateKeyPair, subtle_generateKey, bind, record_call,
      draw, lift.
    cbn [entropy draws trace heap]. rewrite Hg. reflexivity. }
  unfold mount_effect. rewrite E. cbn [fst snd].
  split; [reflexivity|]. split; [reflexivity|].
  intros R children enclosing. reflexivity.
Qed.

Lemma X16_provider_stays_loading_witness :
  fst (mount_effect initial_services failing_world) = None /\
  heap (snd (mount_effect initial_services failing_world)) = heap failing_world.
Proof.
  destruct (X16_provider_stays_loading failing_provider failing_world
              OperationError eq_refl) as (H1 & H2 & _).
  split; assumption.
Defined.

(** X17.  Before the effect has run, [ServicesProvider] renders the
    placeholder.  When key generation succeeds, the effect sets the services,
    the children are rendered inside the provider, [useServices] in them
    returns these services without throwing, and their encryption service
    is an instance on which [encrypt] followed by [decrypt] gives back every
    text of at most 190 UTF-8 bytes that has no unpaired surrogate and no
    U+FEFF in front. *)
Theorem X17_provider_supplies_working_service P (w : World P) pk sk :
  Conforms P ->
  generateKey P generateKey_params true [UEncrypt; UDecrypt]
              (entropy w (draws w)) = inr (pk, sk) ->
  (forall enclosing,
     ServicesContext.ServicesProvider initial_services
       ServicesContext.useServices enclosing
     = ServicesContext.Loading) /\
  exists services w',
    mount_effect initial_services w = (Some services, w') /\
    (forall enclosing,
       ServicesContext.ServicesProvider (Some services)
         ServicesContext.useServices enclosing
       = ServicesContext.Children (inr services)) /\
    forall m,
      js_string m -> UTF16.well_formed m = true -> no_leading_bom m = true ->
      Z.of_nat (List.length (TextEncoder_encode m)) <= 190 ->
      fst ((c <- encrypt (ServicesContext.encryptionService services) m ;;
            decrypt (ServicesContext.encryptionService services) c) w')
      = inr m.
Proof.
  intros HP Hg. split; [reflexivity|].
  destruct (New_run P w pk sk Hg) as (w1 & EN & Hh & _).
  destruct (generateKey_pair P HP _ pk sk Hg) as [Hp _].
  exists {| ServicesContext.encryptionService := List.length (heap w) |}, w1.
  split; [unfold mount_effect; rewrite EN; reflexivity|].
  split; [reflexivity|].
  intros m Hm Hw Hb Hl. cbn [ServicesContext.encryptionService].
  rewrite (encrypt_then_decrypt P w1 _ pk sk m Hh Hp Hm Hl). cbn [fst].
  rewrite text_roundtrip by assumption. reflexivity.
Qed.

Lemma X17_provider_supplies_working_service_witness :
  exists services w',
    mount_effect initial_services ModelProvider.world0 = (Some services, w') /\
    (forall enclosing,
       ServicesContext.ServicesProvider (Some services)
         ServicesContext.useServices enclosing
       = ServicesContext.Children (inr services)) /\
    forall m,
      js_string m -> UTF16.well_formed m = true -> no_leading_bom m = true ->
      Z.of_nat (List.length (TextEncoder_encode m)) <= 190 ->
      fst ((c <- encrypt (ServicesContext.encryptionService services) m ;;
            decrypt (ServicesContext.encryptionService services) c) w')
      = inr m.
Proof.
  exact (proj2 (X17_provider_supplies_working_service ModelProvider.provider
                  ModelProvider.world0 model_pk model_sk
                  ModelProviderFacts.conforms eq_refl)).
Defined.
